(** * SM2 signatures over the curve of [sm2_base.py], and the misuse and
      forgery demonstrations built on them.

    The Python sources are embedded as Rocq functions:
    - an integer is a [Z] ([%] is [Z.modulo] and [//] is [Z.div]: both round
      towards minus infinity, as Python's do);
    - a [Point] is [option (Z * Z)], [None] being the point at infinity;
    - [bytes] is [list byte];
    - a call that can raise returns an [outcome], the exception kept by kind;
    - the SM3 digest comes from outside the repository ([hashlib] or [gmssl])
      and is a function parameter of everything that hashes;
    - the random nonce drawn by a signer is an explicit argument;
    - a function of a module is reached through the import of that module:
      what the module body raises while it is loaded is what every call of
      its functions raises ([imported], in each module);
    - the interpreter nests a bounded number of calls: the recursion of
      [extended_gcd] counts the frames it is given. *)

From Stdlib Require Import ZArith Lia List Bool Znumtheory Setoid Morphisms.
From Stdlib.Strings Require Import Byte String Ascii.
From Stdlib Require Import DecimalString.
From coqutil Require Import Z.PushPullMod.
From Bignums Require Import BigZ.
Import ListNotations.

Local Open Scope Z_scope.

(** ** Exceptions and the outcome of a call *)

Inductive exn : Set :=
| ValueError
| TypeError
| NameError
| IndexError
| OverflowError
| RecursionError
| SyntaxError.

Inductive outcome (A : Type) : Type :=
| Ok (a : A)
| Raise (e : exn).

Arguments Ok {A} a.
Arguments Raise {A} e.

Definition bind {A B : Type} (r : outcome A) (f : A -> outcome B) : outcome B :=
  match r with
  | Ok a => f a
  | Raise e => Raise e
  end.

Notation "x <- r ;; k" := (bind r (fun x => k))
  (at level 61, r at next level, right associativity).
Notation "' pat <- r ;; k" := (bind r (fun x => match x with pat => k end))
  (at level 61, pat pattern, r at next level, right associativity).

(** A point: [None] is the point at infinity. *)
Definition Point : Type := option (Z * Z).

Definition point_eqb (p1 p2 : Point) : bool :=
  match p1, p2 with
  | None, None => true
  | Some (x1, y1), Some (x2, y2) => (x1 =? x2) && (y1 =? y2)
  | _, _ => false
  end.

(** ** Python's [bytes] and the integer conversions *)

Definition bytes : Type := list byte.

Definition byte_of_Z (v : Z) : byte :=
  byte_of_ascii (ascii_of_N (Z.to_N (v mod 256))).

Definition Z_of_byte (c : byte) : Z := Z.of_N (Byte.to_N c).

(** The [length] lowest base-256 digits of [v], most significant first. *)
Fixpoint big_endian (length : nat) (v : Z) : bytes :=
  match length with
  | O => []
  | S l => big_endian l (v / 256) ++ [byte_of_Z v]
  end.

(** [v.to_bytes(length, byteorder='big')]: unsigned, so a negative [v] and a
    [v] of more than [length] bytes raise OverflowError. *)
Definition to_bytes (v : Z) (length : nat) : outcome bytes :=
  if (v <? 0) || (256 ^ Z.of_nat length <=? v) then Raise OverflowError
  else Ok (big_endian length v).

(** [int.from_bytes(data, byteorder='big')]. *)
Definition from_bytes (data : bytes) : Z :=
  fold_left (fun acc c => acc * 256 + Z_of_byte c) data 0.

Fixpoint bytes_eqb (x y : bytes) : bool :=
  match x, y with
  | [], [] => true
  | c :: x', d :: y' => Byte.eqb c d && bytes_eqb x' y'
  | _, _ => false
  end.

(** [l[i]] for an index that is never negative here. *)
Definition index {A : Type} (l : list A) (i : Z) : outcome A :=
  if i <? 0 then Raise IndexError
  else match nth_error l (Z.to_nat i) with
       | Some v => Ok v
       | None => Raise IndexError
       end.

(** [l[i] = v] for [i] within the list. *)
Fixpoint assign {A : Type} (l : list A) (i : nat) (v : A) : list A :=
  match l, i with
  | [], _ => []
  | _ :: l', O => v :: l'
  | c :: l', S i' => c :: assign l' i' v
  end.

(** [k.bit_length()]. *)
Definition bit_length (k : Z) : Z :=
  if k =? 0 then 0 else Z.log2 (Z.abs k) + 1.

(** [x1, y1 = q]: unpacking [None] raises TypeError. *)
Definition unpack (q : Point) : outcome (Z * Z) :=
  match q with
  | Some xy => Ok xy
  | None => Raise TypeError
  end.

Definition is_None (q : Point) : bool :=
  match q with None => true | Some _ => false end.

(** A literal [b"..."], given by the bytes its text has in the source file:
    the compiler accepts ASCII characters only, and rejects the file
    otherwise. *)
Definition bytes_literal (text : bytes) : outcome bytes :=
  if forallb (fun c => Z_of_byte c <? 128) text then Ok text
  else Raise SyntaxError.

(** [sys.getrecursionlimit()], which the program leaves at CPython's default:
    the number of nested calls the interpreter accepts. *)
Definition recursion_limit : nat := 1000.

(** The Fibonacci numbers [0, 1, 1, 2, 3, 5, ..]: of all arguments of their
    size, two consecutive ones make Euclid's algorithm recurse deepest. *)
Fixpoint fibonacci_pair (k : nat) : Z * Z :=
  match k with
  | O => (0, 1)
  | S k' => let '(x, y) := fibonacci_pair k' in (y, x + y)
  end.

Definition fibonacci (k : nat) : Z := fst (fibonacci_pair k).

(** ** sm2_base.py *)

Module Base.

(** The curve parameters of lines 14-19. *)
Definition p : Z := 0x8542D69E4C044F18E8B92435BF6FF7DE457283915C45517D722EDB8B08F1DFC3.
Definition a : Z := 0x787968B4FA32C3FD2417842E73BBFEFF2F3C848B6831D7E0EC65228B3937E498.
Definition b : Z := 0x63E4C6D3B23B0C849CF84241484BFE48F61D59A5B16BA06E6E12D1DA27C5249A.
Definition n : Z := 0x8542D69E4C044F18E8B92435BF6FF7DD297720630485628D5AE74EE7C32E79B7.
Definition Gx : Z := 0x421DEBD61B62EAB6746434EBC3CC315E32220B3BADD50BDC4C4E6C147FEDD43D.
Definition Gy : Z := 0x0680512BCBB42C07D47349D2153B70C4E5D7FDFCBFA36EA1A85841B9E46E09A2.

(** [extended_gcd] recurses on [(b % a, a)], one frame of the interpreter for
    each nested call: [extended_gcd_calls depth a b] is [None] when more than
    [depth] nested calls are needed. *)
Fixpoint extended_gcd_calls (depth : nat) (a b : Z) : option (Z * Z * Z) :=
  match depth with
  | O => None
  | S depth' =>
      if a =? 0 then Some (b, 0, 1)
      else
        match extended_gcd_calls depth' (b mod a) a with
        | Some (g, y, x) => Some (g, x - (b / a) * y, y)
        | None => None
        end
  end.

(** [extended_gcd(a, b)], called when the interpreter accepts [frames] more
    nested calls: past them it raises RecursionError. *)
Definition extended_gcd (frames : nat) (a b : Z) : outcome (Z * Z * Z) :=
  match extended_gcd_calls frames a b with
  | Some r => Ok r
  | None => Raise RecursionError
  end.

(** The frames left to [extended_gcd] when [mod_inverse] calls it: the frame
    of [mod_inverse] and the one of its caller are in use.  The call chains
    of this repository use a few more; the first argument more than halves
    every two calls, so the 256-bit arguments they pass need 513 frames
    ([extended_gcd_calls_bits]). *)
Definition mod_inverse_frames : nat := recursion_limit - 2.

Definition mod_inverse (a m : Z) : outcome Z :=
  '(g, x, y) <- extended_gcd mod_inverse_frames a m ;;
  if negb (g =? 1) then Raise ValueError else Ok (x mod m).

Arguments extended_gcd : simpl never.
Arguments mod_inverse : simpl never.

Definition point_add (p1 p2 : Point) : outcome Point :=
  match p1, p2 with
  | None, _ => Ok p2
  | _, None => Ok p1
  | Some (x1, y1), Some (x2, y2) =>
      if (x1 =? x2) && ((y1 + y2) mod p =? 0) then Ok None
      else
        k <- (if negb (point_eqb p1 p2) then
                let dx := (x2 - x1) mod p in
                let dy := (y2 - y1) mod p in
                inv_dx <- mod_inverse dx p ;;
                Ok ((dy * inv_dx) mod p)
              else
                let k_numerator := (3 * x1 * x1 + a) mod p in
                let k_denominator := (2 * y1) mod p in
                inv_denominator <- mod_inverse k_denominator p ;;
                Ok ((k_numerator * inv_denominator) mod p)) ;;
        let x3 := (k * k - x1 - x2) mod p in
        let y3 := (k * (x1 - x3) - y1) mod p in
        Ok (Some (x3, y3))
  end.

(** The [while k > 0] loop of [point_multiply]; [k] is halved at every
    iteration, so [iterations] counts down from the bit length of [k]. *)
Fixpoint point_multiply_loop (iterations : nat) (k : Z) (result current : Point)
  : outcome Point :=
  match iterations with
  | O => Ok result
  | S iterations' =>
      if k >? 0 then
        result' <- (if k mod 2 =? 1 then point_add result current else Ok result) ;;
        current' <- point_add current current ;;
        point_multiply_loop iterations' (k / 2) result' current'
      else Ok result
  end.

Definition point_multiply (p : Point) (k : Z) : outcome Point :=
  point_multiply_loop (Z.to_nat (bit_length k)) k None p.

(** [generate_key_pair]; [d] is the value of [random.randint(2, n-2)]. *)
Definition generate_key_pair (d : Z) : outcome (Z * Point) :=
  P <- point_multiply (Some (Gx, Gy)) d ;;
  Ok (d, P).

(** The membership test of [test_key_generation] (tests/test_all.py, lines
    47-50), the identity counted as a point of the curve. *)
Definition on_curve (q : Point) : bool :=
  match q with
  | None => true
  | Some (x, y) =>
      let left := (y * y) mod p in
      let right := (x * x * x + a * x + b) mod p in
      left =? right
  end.

Section Hashing.

(** [sm3_hash]: the SM3 digest, taken from [hashlib] or [gmssl]. *)
Variable sm3_hash : bytes -> bytes.

Definition calculate_z (id : bytes) (public_key : Point) : outcome bytes :=
  let entla := Z.of_nat (List.length id) * 8 in
  entla_bytes <- to_bytes entla 2 ;;
  a_bytes <- to_bytes a 32 ;;
  b_bytes <- to_bytes b 32 ;;
  Gx_bytes <- to_bytes Gx 32 ;;
  Gy_bytes <- to_bytes Gy 32 ;;
  '(Px, _) <- unpack public_key ;;
  Px_bytes <- to_bytes Px 32 ;;
  '(_, Py) <- unpack public_key ;;
  Py_bytes <- to_bytes Py 32 ;;
  let data :=
    ((((((entla_bytes ++ id) ++ a_bytes) ++ b_bytes) ++ Gx_bytes) ++ Gy_bytes)
       ++ Px_bytes) ++ Py_bytes in
  Ok (sm3_hash data).

(** One pass through the body of the signing loop with the nonce [k]:
    [None] is a [continue]. *)
Definition sign_iteration (d e k : Z) : outcome (option (Z * Z)) :=
  kG <- point_multiply (Some (Gx, Gy)) k ;;
  match kG with
  | None => Ok None
  | Some (x1, _) =>
      let r := (e + x1) mod n in
      if (r =? 0) || (r + k =? n) then Ok None
      else
        inv_1d <- mod_inverse (1 + d) n ;;
        let s := (inv_1d * (k - r * d)) mod n in
        if s =? 0 then Ok None else Ok (Some (r, s))
  end.

(** [sign], the successive values of [random.randint(2, n-2)] being [draws];
    [Ok None]: every draw was rejected and the loop is still running. *)
Fixpoint sign_loop (d e : Z) (draws : list Z) : outcome (option (Z * Z)) :=
  match draws with
  | [] => Ok None
  | k :: draws' =>
      attempt <- sign_iteration d e k ;;
      match attempt with
      | Some signature => Ok (Some signature)
      | None => sign_loop d e draws'
      end
  end.

Definition sign (d : Z) (message z : bytes) (draws : list Z)
  : outcome (option (Z * Z)) :=
  let e_bytes := sm3_hash (z ++ message) in
  let e := from_bytes e_bytes in
  sign_loop d e draws.

Definition verify (public_key : Point) (message z : bytes) (r s : Z) : outcome bool :=
  if negb ((1 <=? r) && (r <=? n - 1) && (1 <=? s) && (s <=? n - 1)) then Ok false
  else
    let e_bytes := sm3_hash (z ++ message) in
    let e := from_bytes e_bytes in
    let t := (r + s) mod n in
    if t =? 0 then Ok false
    else
      sG <- point_multiply (Some (Gx, Gy)) s ;;
      tP <- point_multiply public_key t ;;
      if is_None sG || is_None tP then Ok false
      else
        x1y1 <- point_add sG tP ;;
        match x1y1 with
        | None => Ok false
        | Some (x1, _) =>
            let R := (e + x1) mod n in
            Ok (R =? r)
        end.

End Hashing.

End Base.


(** ** sm2_optimized.py *)

Module Optimized.

Import Base.

(** *** The functions, as the [def] statements write them

    Each body is given over the functions and the table that the names it
    reads are bound to. *)

(** [point_double(p)], lines 31-48: the argument is called [p], so inside the
    body [p] is the point and not the modulus of line 14 of sm2_base.py.  The
    first statement after the unpacking, [(3 * x1 * x1 + a) % p] of line 39,
    has the pair on the right of [%] and raises TypeError; the rest of the
    body is never reached. *)
Definition int_mod_pair (v : Z) (q : Z * Z) : outcome Empty_set := Raise TypeError.

Definition point_double_body (p : Point) : outcome Point :=
  match p with
  | None => Ok None
  | Some (x1, y1) =>
      k_numerator <- int_mod_pair (3 * x1 * x1 + a) (x1, y1) ;;
      match k_numerator return outcome Point with end
  end.

(** [precompute_g_table()], lines 18-26, as it runs when the global name
    [point_double] is bound to [double]; [None]: the name is not bound, and
    the call of line 24 raises NameError. *)
Fixpoint g_table_from (double : option (Point -> outcome Point))
    (entries : nat) (current : Point) : outcome (list Point) :=
  match entries with
  | O => Ok []
  | S entries' =>
      match double with
      | None => Raise NameError
      | Some point_double =>
          current' <- point_double current ;;
          table <- g_table_from double entries' current' ;;
          Ok (current' :: table)
      end
  end.

Definition precompute_g_table (double : option (Point -> outcome Point))
  : outcome (list Point) :=
  let current := Some (Gx, Gy) in
  table <- g_table_from double 255 current ;;
  Ok (current :: table).

(** [point_add], lines 50-78, with the doubling it delegates to as an
    argument. *)
Definition point_add_with (point_double : Point -> outcome Point)
    (p1 p2 : Point) : outcome Point :=
  match p1, p2 with
  | None, _ => Ok p2
  | _, None => Ok p1
  | Some (x1, y1), Some (x2, y2) =>
      if (x1 =? x2) && ((y1 + y2) mod p =? 0) then Ok None
      else if point_eqb p1 p2 then point_double p1
      else
        let dx := (x2 - x1) mod p in
        let dy := (y2 - y1) mod p in
        inv_dx <- mod_inverse dx p ;;
        let k := (dy * inv_dx) mod p in
        let x3 := (k * k - x1 - x2) mod p in
        let y3 := (k * (x1 - x3) - y1) mod p in
        Ok (Some (x3, y3))
  end.

Section Multiply.

(** The two branches of [point_multiply], lines 80-136, over the doubling,
    the addition and the generator table they use. *)
Variable point_double : Point -> outcome Point.
Variable point_add : Point -> Point -> outcome Point.
Variable G_TABLE : list Point.

(** Lines 87-97: the generator branch. *)
Fixpoint table_loop (iterations : nat) (k current_bit : Z) (result : Point)
  : outcome Point :=
  match iterations with
  | O => Ok result
  | S iterations' =>
      if k >? 0 then
        result' <-
          (if negb (Z.land k 1 =? 0) then
             entry <- index G_TABLE current_bit ;;
             if is_None result then Ok entry else point_add result entry
           else Ok result) ;;
        table_loop iterations' (Z.shiftr k 1) (current_bit + 1) result'
      else Ok result
  end.

Definition multiply_by_table (k : Z) : outcome Point :=
  table_loop (Z.to_nat (bit_length k)) k 0 None.

(** Lines 104-108: the table of the multiples [1*p .. 15*p]. *)
Definition window_table (p : Point) : outcome (list Point) :=
  fold_left
    (fun filled i =>
       table <- filled ;;
       doubled <- point_double (nth (Nat.div2 i) table None) ;;
       let table := assign table i doubled in
       next <- point_add (nth i table None) p ;;
       Ok (assign table (S i) next))
    [2; 4; 6; 8; 10; 12; 14]%nat
    (Ok (assign (repeat None 16) 1 p)).

(** Lines 118-123: the four bits of [k] from bit [i] downwards, zero-filled
    below bit 0. *)
Definition window_bits (k i : Z) : Z :=
  fold_left
    (fun bits j =>
       if i - j >=? 0 then Z.lor (Z.shiftl bits 1) (Z.land (Z.shiftr k (i - j)) 1)
       else Z.shiftl bits 1)
    [0; 1; 2; 3] 0.

(** Lines 115-134: the [while i >= 0] loop; [i] decreases at every iteration. *)
Fixpoint window_loop (table : list Point) (iterations : nat) (k i : Z)
    (result : Point) : outcome Point :=
  match iterations with
  | O => Ok result
  | S iterations' =>
      if i >=? 0 then
        '(result', i') <-
          (if negb (Z.land (Z.shiftr k i) 1 =? 0) then
             let bits := window_bits k i in
             entry <- index table bits ;;
             result' <- (if is_None result then Ok entry
                         else point_add result entry) ;;
             Ok (result', i - 4)
           else Ok (result, i - 1)) ;;
        result'' <- (if (i' >=? 0) && negb (is_None result')
                     then point_double result' else Ok result') ;;
        window_loop table iterations' k i' result''
      else Ok result
  end.

Definition multiply_windowed (p : Point) (k : Z) : outcome Point :=
  table <- window_table p ;;
  let k_bits := bit_length k in
  let i := k_bits - 1 in
  window_loop table (Z.to_nat (i + 1)) k i None.

Definition point_multiply_with (p : Point) (k : Z) : outcome Point :=
  if is_None p || (k =? 0) then Ok None
  else if point_eqb p (Some (Gx, Gy)) then multiply_by_table k
  else multiply_windowed p k.

End Multiply.

Section Signatures.

(** [calculate_z], [sign] and [verify], lines 138-215, over the hash and the
    point arithmetic they call. *)
Variable sm3_hash : bytes -> bytes.
Variable point_multiply : Point -> Z -> outcome Point.
Variable point_add : Point -> Point -> outcome Point.

(** [data.extend(x)] appends [x] to the bytearray. *)
Definition extend (data x : bytes) : bytes := data ++ x.

Definition calculate_z_body (id : bytes) (public_key : Point) : outcome bytes :=
  let entla := Z.of_nat (List.length id) * 8 in
  let data := [] in
  entla_bytes <- to_bytes entla 2 ;;
  let data := extend data entla_bytes in
  let data := extend data id in
  a_bytes <- to_bytes a 32 ;;
  let data := extend data a_bytes in
  b_bytes <- to_bytes b 32 ;;
  let data := extend data b_bytes in
  Gx_bytes <- to_bytes Gx 32 ;;
  let data := extend data Gx_bytes in
  Gy_bytes <- to_bytes Gy 32 ;;
  let data := extend data Gy_bytes in
  '(Px, _) <- unpack public_key ;;
  Px_bytes <- to_bytes Px 32 ;;
  let data := extend data Px_bytes in
  '(_, Py) <- unpack public_key ;;
  Py_bytes <- to_bytes Py 32 ;;
  let data := extend data Py_bytes in
  Ok (sm3_hash data).

(** One pass through the body of the signing loop, [inv_1d] computed before
    the loop. *)
Definition sign_iteration (d e inv_1d k : Z) : outcome (option (Z * Z)) :=
  kG <- point_multiply (Some (Gx, Gy)) k ;;
  match kG with
  | None => Ok None
  | Some (x1, _) =>
      let r := (e + x1) mod n in
      if (r =? 0) || (r + k =? n) then Ok None
      else
        let s := (inv_1d * (k - r * d)) mod n in
        if s =? 0 then Ok None else Ok (Some (r, s))
  end.

Fixpoint sign_loop (d e inv_1d : Z) (draws : list Z) : outcome (option (Z * Z)) :=
  match draws with
  | [] => Ok None
  | k :: draws' =>
      attempt <- sign_iteration d e inv_1d k ;;
      match attempt with
      | Some signature => Ok (Some signature)
      | None => sign_loop d e inv_1d draws'
      end
  end.

Definition sign_with (d : Z) (message z : bytes) (draws : list Z)
  : outcome (option (Z * Z)) :=
  let e_bytes := sm3_hash (z ++ message) in
  let e := from_bytes e_bytes in
  inv_1d <- mod_inverse (1 + d) n ;;
  sign_loop d e inv_1d draws.

Definition verify_with (public_key : Point) (message z : bytes) (r s : Z)
  : outcome bool :=
  if negb ((1 <=? r) && (r <=? n - 1) && (1 <=? s) && (s <=? n - 1)) then Ok false
  else
    let e_bytes := sm3_hash (z ++ message) in
    let e := from_bytes e_bytes in
    let t := (r + s) mod n in
    if t =? 0 then Ok false
    else
      sG <- point_multiply (Some (Gx, Gy)) s ;;
      tP <- point_multiply public_key t ;;
      if is_None sG || is_None tP then Ok false
      else
        x1y1 <- point_add sG tP ;;
        match x1y1 with
        | None => Ok false
        | Some (x1, _) =>
            let R := (e + x1) mod n in
            Ok (R =? r)
        end.

End Signatures.

(** *** The import of the module

    [import src.sm2_optimized] executes the file from its first line.  Lines
    12-15 import from sm2_base.py and line 18 binds [precompute_g_table];
    line 29, [G_TABLE = precompute_g_table()], then calls it while
    [def point_double], on line 31, has not been executed: the name is not
    bound.  What line 29 raises ends the import, and none of the [def]
    statements after it is executed. *)
Definition G_TABLE : outcome (list Point) := precompute_g_table None.

(** A call of a function of this module by a program: the import first, then
    the body, which reads in [G_TABLE] the table that line 29 bound. *)
Definition imported {A : Type} (body : list Point -> outcome A) : outcome A :=
  table <- G_TABLE ;; body table.

(** *** The functions, as a program that imports the module calls them *)

Definition point_double (p : Point) : outcome Point :=
  imported (fun _ => point_double_body p).

Definition point_add (p1 p2 : Point) : outcome Point :=
  imported (fun _ => point_add_with point_double_body p1 p2).

Definition point_multiply (p : Point) (k : Z) : outcome Point :=
  imported (fun G_TABLE =>
    point_multiply_with point_double_body (point_add_with point_double_body)
      G_TABLE p k).

Section Hashing.

Variable sm3_hash : bytes -> bytes.

Definition calculate_z (id : bytes) (public_key : Point) : outcome bytes :=
  imported (fun _ => calculate_z_body sm3_hash id public_key).

Definition sign (d : Z) (message z : bytes) (draws : list Z)
  : outcome (option (Z * Z)) :=
  imported (fun G_TABLE =>
    sign_with sm3_hash
      (point_multiply_with point_double_body (point_add_with point_double_body)
         G_TABLE)
      d message z draws).

Definition verify (public_key : Point) (message z : bytes) (r s : Z) : outcome bool :=
  imported (fun G_TABLE =>
    verify_with sm3_hash
      (point_multiply_with point_double_body (point_add_with point_double_body)
         G_TABLE)
      (point_add_with point_double_body)
      public_key message z r s).

End Hashing.

End Optimized.

(** ** sm2_misuse.py *)

Module Misuse.

Import Base.

(** Line 11, [from src.sm2_optimized import ...]: the import of
    sm2_optimized.py is the first thing the import of this module does, and
    what it raises ends both.  A call of a function of this module by a
    program is the import, then the body. *)
Definition imported {A : Type} (body : outcome A) : outcome A :=
  Optimized.imported (fun _ => body).

Section Hashing.

Variable sm3_hash : bytes -> bytes.

(** Lines 31-52 of [scenario1_reused_k]: the two signatures made with the
    nonce [k], whose point [k*G] has the x-coordinate [x1], and the recovery
    of the key from them. *)
Definition scenario1_recover (d k e1 e2 x1 : Z) : outcome (Z * bool) :=
  let r1 := (e1 + x1) mod n in
  inv_1d <- mod_inverse (1 + d) n ;;
  let s1 := (inv_1d * (k - r1 * d)) mod n in
  let r2 := (e2 + x1) mod n in
  let s2 := (inv_1d * (k - r2 * d)) mod n in
  let numerator := ((s1 - s2) * (e1 - e2)) mod n in
  let denominator := (s2 * r1 - s1 * r2) mod n in
  if denominator =? 0 then Ok (0, false)
  else
    inverse <- mod_inverse denominator n ;;
    let d_recovered := (numerator * inverse) mod n in
    let success := d_recovered =? d in
    Ok (d_recovered, success).

(** The body of [scenario1_reused_k], lines 18-52; [k] is the value of
    [random.randint(2, n-2)], and [point_multiply] is the function imported
    from sm2_optimized.py. *)
Definition scenario1_body (d : Z) (M1 M2 Z1 Z2 : bytes) (k : Z)
  : outcome (Z * bool) :=
  let e1_bytes := sm3_hash (Z1 ++ M1) in
  let e1 := from_bytes e1_bytes in
  kG <- Optimized.point_multiply (Some (Gx, Gy)) k ;;
  '(x1, _) <- unpack kG ;;
  let e2_bytes := sm3_hash (Z2 ++ M2) in
  let e2 := from_bytes e2_bytes in
  scenario1_recover d k e1 e2 x1.

Definition scenario1_reused_k (d : Z) (M1 M2 Z1 Z2 : bytes) (k : Z)
  : outcome (Z * bool) :=
  imported (scenario1_body d M1 M2 Z1 Z2 k).

(** Lines 65-76 of [scenario2_fixed_k]: the signature made with the nonce
    [k], whose point has the x-coordinate [x1], and the pair forged from it
    for the digest [e_prime]. *)
Definition scenario2_forge (d k e e_prime x1 : Z) : outcome (Z * Z) :=
  let r := (e + x1) mod n in
  inv_1d <- mod_inverse (1 + d) n ;;
  let s := (inv_1d * (k - r * d)) mod n in
  let r_prime := (r + e_prime - e) mod n in
  let s_prime := (s + (r_prime - r) * inv_1d) mod n in
  Ok (r_prime, s_prime).

Definition forged_suffix : bytes := list_byte_of_string "_forged".

(** The body of [scenario2_fixed_k], lines 54-82. *)
Definition scenario2_body (d : Z) (M Z_ : bytes) (fixed_k : Z)
  : outcome ((Z * Z) * bool) :=
  let k := fixed_k in
  let e_bytes := sm3_hash (Z_ ++ M) in
  let e := from_bytes e_bytes in
  kG <- Optimized.point_multiply (Some (Gx, Gy)) k ;;
  '(x1, _) <- unpack kG ;;
  let M_prime := M ++ forged_suffix in
  let e_prime_bytes := sm3_hash (Z_ ++ M_prime) in
  let e_prime := from_bytes e_prime_bytes in
  '(r_prime, s_prime) <- scenario2_forge d k e e_prime x1 ;;
  P <- Optimized.point_multiply (Some (Gx, Gy)) d ;;
  valid <- Optimized.verify sm3_hash P M_prime Z_ r_prime s_prime ;;
  Ok ((r_prime, s_prime), valid).

Definition scenario2_fixed_k (d : Z) (M Z_ : bytes) (fixed_k : Z)
  : outcome ((Z * Z) * bool) :=
  imported (scenario2_body d M Z_ fixed_k).

(** The body of [scenario3_incorrect_Z], lines 84-106; [draws] are the
    nonces its call of [sign] draws, and [Ok None] stands for a signing loop
    that is still running. *)
Definition scenario3_body (d : Z) (M ID1 ID2 : bytes) (draws : list Z)
  : outcome (option ((Z * Z) * bool)) :=
  P <- Optimized.point_multiply (Some (Gx, Gy)) d ;;
  Z1 <- Optimized.calculate_z sm3_hash ID1 P ;;
  signature <- Optimized.sign sm3_hash d M Z1 draws ;;
  match signature with
  | None => Ok None
  | Some (r, s) =>
      Z2_correct <- Optimized.calculate_z sm3_hash ID2 P ;;
      invalid_verify <- Optimized.verify sm3_hash P M Z1 r s ;;
      valid_verify <- Optimized.verify sm3_hash P M Z2_correct r s ;;
      let success := invalid_verify && negb valid_verify in
      Ok (Some ((r, s), success))
  end.

Definition scenario3_incorrect_Z (d : Z) (M ID1 ID2 : bytes) (draws : list Z)
  : outcome (option ((Z * Z) * bool)) :=
  imported (scenario3_body d M ID1 ID2 draws).

(** The body of [scenario4_malleable_signature], lines 108-118, over the
    verifier it calls. *)
Definition scenario4_with (verify : Point -> bytes -> bytes -> Z -> Z -> outcome bool)
    (P : Point) (M Z_ : bytes) (r s : Z) : outcome ((Z * Z) * bool) :=
  let s_prime := (- s - r) mod n in
  valid <- verify P M Z_ r s_prime ;;
  Ok ((r, s_prime), valid).

Definition scenario4_malleable_signature (P : Point) (M Z_ : bytes) (r s : Z)
  : outcome ((Z * Z) * bool) :=
  imported (scenario4_with (Optimized.verify sm3_hash) P M Z_ r s).

End Hashing.

End Misuse.

(** ** satoshi_forgery.py *)

Module Forgery.

Import Base.

Definition SATOSHI_PUBLIC_KEY : Z * Z :=
  (0x51F707393F5B26211D5C5C6A085A67403E6C63343D7A623555D1400D012291E85D,
   0x5869723D861A67515B88F486658327B7381D6D4D7A75A7C7667A7C7A7D7E7F8081).

(** The two scalars of lines 34-35. *)
Definition u : Z := 0x123456789ABCDEF0123456789ABCDEF0123456789ABCDEF0123456789ABCDEF0.
Definition v : Z := 0xFEDCBA9876543210FEDCBA9876543210FEDCBA9876543210FEDCBA9876543210.

(** [f"Z_candidate_{i}".encode()]. *)
Definition Z_candidate (i : nat) : bytes :=
  list_byte_of_string
    (String.append "Z_candidate_" (NilZero.string_of_uint (Nat.to_uint i))).

Definition special_Z : bytes := list_byte_of_string "satoshi_forgery_special_Z".

(** Line 116, [message = b"..."] in [test_forgery]: the 17 characters
    between the quotes are Chinese, 51 bytes of UTF-8 in the file. *)
Definition test_message : outcome bytes :=
  bytes_literal
    [xe6; x88; x91; xe6; x98; xaf; xe4; xb8; xad; xe6; x9c; xac; xe8; x81;
     xaa; xef; xbc; x8c; xe6; xad; xa4; xe5; x8c; xba; xe5; x9d; x97; xe9;
     x93; xbe; xe8; xb5; x84; xe4; xba; xa7; xe5; xbd; x92; xe6; x88; x91;
     xe6; x89; x80; xe6; x9c; x89; xe3; x80; x82].

(** The file is compiled as a whole before its first statement is executed:
    a literal that the compiler rejects makes the import raise, whichever
    function holds it.  Then lines 11-14, [from src.sm2_optimized import
    ...], import sm2_optimized.py.  A call of a function of this module by a
    program is the import, then the body. *)
Definition imported {A : Type} (body : outcome A) : outcome A :=
  _ <- test_message ;;
  Optimized.imported (fun _ => body).

Section Hashing.

Variable sm3_hash : bytes -> bytes.

(** The search of [find_z_for_hash] over the candidates [i, i+1, ..]. *)
Fixpoint find_z_from (candidates : nat) (i : nat) (target_hash message : bytes)
  : option bytes :=
  match candidates with
  | O => None
  | S candidates' =>
      let Z_candidate := Z_candidate i in
      if bytes_eqb (sm3_hash (Z_candidate ++ message)) target_hash
      then Some Z_candidate
      else find_z_from candidates' (S i) target_hash message
  end.

(** The body of [find_z_for_hash], lines 60-79. *)
Definition find_z_for_hash_body (target_hash message : bytes) : bytes :=
  match find_z_from (100 * 100) 0 target_hash message with
  | Some Z_ => Z_
  | None => special_Z
  end.

Definition find_z_for_hash (target_hash message : bytes) : outcome bytes :=
  imported (Ok (find_z_for_hash_body target_hash message)).

(** Lines 45-58 of [forge_satoshi_signature]: from the x-coordinate [x1] of
    [u*G + v*P] to the forged triple. *)
Definition forge_from_x1 (message : bytes) (x1 : Z) : outcome (Z * Z * bytes) :=
  let r := x1 mod n in
  let e := (r - x1) mod n in
  e_bytes <- to_bytes e 32 ;;
  let Z_ := find_z_for_hash_body e_bytes message in
  inv_v <- mod_inverse v n ;;
  let s := (inv_v * (u + r * v)) mod n in
  Ok (r, s, Z_).

(** The body of [forge_satoshi_signature], lines 24-58, over the point
    arithmetic it calls. *)
Definition forge_with (point_multiply : Point -> Z -> outcome Point)
    (point_add : Point -> Point -> outcome Point)
    (message : bytes) (satoshi_pubkey : Point) : outcome (Z * Z * bytes) :=
  uG <- point_multiply (Some (Gx, Gy)) u ;;
  vP <- point_multiply satoshi_pubkey v ;;
  x1y1 <- point_add uG vP ;;
  match x1y1 with
  | None => Raise ValueError
  | Some (x1, y1) => forge_from_x1 message x1
  end.

Definition forge_satoshi_signature (message : bytes) (satoshi_pubkey : Point)
  : outcome (Z * Z * bytes) :=
  imported (forge_with Optimized.point_multiply Optimized.point_add
              message satoshi_pubkey).

(** The body of [verify_forgery], lines 81-111, over the point arithmetic it
    calls. *)
Definition verify_forgery_with (point_multiply : Point -> Z -> outcome Point)
    (point_add : Point -> Point -> outcome Point)
    (message Z_ : bytes) (r s : Z) (pubkey : Point) : outcome bool :=
  if negb ((1 <=? r) && (r <=? n - 1) && (1 <=? s) && (s <=? n - 1)) then Ok false
  else
    let e_bytes := sm3_hash (Z_ ++ message) in
    let e := from_bytes e_bytes in
    let t := (r + s) mod n in
    if t =? 0 then Ok false
    else
      sG <- point_multiply (Some (Gx, Gy)) s ;;
      tP <- point_multiply pubkey t ;;
      if is_None sG || is_None tP then Ok false
      else
        x1y1 <- point_add sG tP ;;
        match x1y1 with
        | None => Ok false
        | Some (x1, y1) =>
            let R := (e + x1) mod n in
            Ok (R =? r)
        end.

Definition verify_forgery (message Z_ : bytes) (r s : Z) (pubkey : Point)
  : outcome bool :=
  imported (verify_forgery_with Optimized.point_multiply Optimized.point_add
              message Z_ r s pubkey).

End Hashing.

End Forgery.

(** ** The Z-digest preimage as the specification words it *)

Module Spec.

Import Base.

(** [v] "encoded as [width] bytes, big-endian, zero-padded": the byte at
    position [i] from the left is the base-256 digit of weight
    [256 ^ (width - 1 - i)]. *)
Definition fixed_width (width : nat) (v : Z) : bytes :=
  map (fun i => byte_of_Z (v / 256 ^ Z.of_nat (width - 1 - i))) (seq 0 width).

(** ENTLA, the identity, then [a], [b], [Gx], [Gy], [Px], [Py], in order. *)
Definition z_preimage (id : bytes) (Px Py : Z) : bytes :=
  fixed_width 2 (Z.of_nat (List.length id) * 8) ++ id ++
  fixed_width 32 a ++ fixed_width 32 b ++
  fixed_width 32 Gx ++ fixed_width 32 Gy ++
  fixed_width 32 Px ++ fixed_width 32 Py.

End Spec.

(** ** A key pair and a signature to evaluate the code on *)

Module Demo.

Import Base.

(** The private key [d = 2] and its public key [P = 2*G]. *)
Definition d : Z := 2.

Definition P : Point :=
  Some (42570666299810323699397928591790088686543037717156784807643674406889060116550,
        59289798630472029681844639636332726824646210438193751815241083427957931182324).

(** The nonce [k = 5], the x-coordinate [x1] of [5*G], and the digest value
    for which the signature made with this nonce is [(r, s) = (1, 1)]:
    [e = (1 - x1) mod n]. *)
Definition k : Z := 5.

Definition x1 : Z :=
  47937180651974634039988253628751843908474181174847838982830525924728045058011.

Definition e : Z := (1 - x1) mod n.

(** A hash that answers the 32 bytes of [v] whatever it is given. *)
Definition constant_hash (v : Z) : bytes -> bytes := fun _ => big_endian 32 v.

(** The multiples [u*G] and [v*P] of the forgery, and the pair [(r, s)] it
    derives from their sum. *)
Definition uG : Point :=
  Some (18253070521832397234951241330740889739312195683322500967086128618042356450078,
        581708202839507375116457822650951718459285376648446757418865067824679051846).

Definition vP : Point :=
  Some (3194684236030073366565653929213492525446397178112805648348160855898948454015,
        22220305959065319284973557817933216855802633667708122624605467207071157312628).

Definition forged_r : Z :=
  36428317087282155688608408938741211387332607828169171876516708201933556042378.

Definition forged_s : Z :=
  44169681091341997582486329012456632786162709321470341720936499928874386068166.

(** Doubling as sm2_base.py does it, by [point_add(q, q)]. *)
Definition base_double (q : Point) : outcome Point := point_add q q.

End Demo.

(** ** The arithmetic of sm2_base.py on machine-word integers

    The coordinates are [bigZ] numbers, trees of 63-bit words, on which the
    256-bit divisions of [extended_gcd] are evaluated quickly.  These
    functions follow the ones of [Base] line by line and are only used to
    evaluate them: [big_point_multiply_spec] and [big_verify_spec] show that
    they compute the same results. *)

Module Big.

Definition p : bigZ := Eval vm_compute in BigZ.of_Z Base.p.
Definition a : bigZ := Eval vm_compute in BigZ.of_Z Base.a.

Definition BPoint : Type := option (bigZ * bigZ).

Definition to_point (q : BPoint) : Point :=
  match q with
  | Some (x, y) => Some (BigZ.to_Z x, BigZ.to_Z y)
  | None => None
  end.

Definition to_outcome (r : outcome BPoint) : outcome Point :=
  match r with
  | Ok q => Ok (to_point q)
  | Raise e => Raise e
  end.

Definition of_point (q : Point) : BPoint :=
  match q with
  | Some (x, y) => Some (BigZ.of_Z x, BigZ.of_Z y)
  | None => None
  end.

Definition G : BPoint := Eval vm_compute in of_point (Some (Base.Gx, Base.Gy)).

Definition P : BPoint := Eval vm_compute in of_point Demo.P.

Fixpoint extended_gcd_calls (depth : nat) (a b : bigZ) : option (bigZ * bigZ * bigZ) :=
  match depth with
  | O => None
  | S depth' =>
      if BigZ.eqb a 0 then Some (b, 0%bigZ, 1%bigZ)
      else
        let (q, r) := BigZ.div_eucl b a in
        match extended_gcd_calls depth' r a with
        | Some (g, y, x) => Some (g, BigZ.sub x (BigZ.mul q y), y)
        | None => None
        end
  end.

Definition mod_inverse (a m : bigZ) : outcome bigZ :=
  match extended_gcd_calls Base.mod_inverse_frames a m with
  | None => Raise RecursionError
  | Some (g, x, y) =>
      if negb (BigZ.eqb g 1) then Raise ValueError else Ok (BigZ.modulo x m)
  end.

Definition point_add (p1 p2 : BPoint) : outcome BPoint :=
  match p1, p2 with
  | None, _ => Ok p2
  | _, None => Ok p1
  | Some (x1, y1), Some (x2, y2) =>
      if BigZ.eqb x1 x2 && BigZ.eqb (BigZ.modulo (BigZ.add y1 y2) p) 0 then Ok None
      else
        k <- (if negb (BigZ.eqb x1 x2 && BigZ.eqb y1 y2) then
                let dx := BigZ.modulo (BigZ.sub x2 x1) p in
                let dy := BigZ.modulo (BigZ.sub y2 y1) p in
                inv_dx <- mod_inverse dx p ;;
                Ok (BigZ.modulo (BigZ.mul dy inv_dx) p)
              else
                let k_numerator :=
                  BigZ.modulo (BigZ.add (BigZ.mul (BigZ.mul 3 x1) x1) a) p in
                let k_denominator := BigZ.modulo (BigZ.mul 2 y1) p in
                inv_denominator <- mod_inverse k_denominator p ;;
                Ok (BigZ.modulo (BigZ.mul k_numerator inv_denominator) p)) ;;
        let x3 := BigZ.modulo (BigZ.sub (BigZ.sub (BigZ.mul k k) x1) x2) p in
        let y3 := BigZ.modulo (BigZ.sub (BigZ.mul k (BigZ.sub x1 x3)) y1) p in
        Ok (Some (x3, y3))
  end.

Fixpoint point_multiply_loop (iterations : nat) (k : Z) (result current : BPoint)
  : outcome BPoint :=
  match iterations with
  | O => Ok result
  | S iterations' =>
      if k >? 0 then
        result' <- (if k mod 2 =? 1 then point_add result current else Ok result) ;;
        current' <- point_add current current ;;
        point_multiply_loop iterations' (k / 2) result' current'
      else Ok result
  end.

Definition point_multiply (p : BPoint) (k : Z) : outcome BPoint :=
  point_multiply_loop (Z.to_nat (bit_length k)) k None p.

Section Hashing.

Variable sm3_hash : bytes -> bytes.

Definition verify (public_key : BPoint) (message z : bytes) (r s : Z) : outcome bool :=
  if negb ((1 <=? r) && (r <=? Base.n - 1) && (1 <=? s) && (s <=? Base.n - 1))
  then Ok false
  else
    let e_bytes := sm3_hash (z ++ message) in
    let e := from_bytes e_bytes in
    let t := (r + s) mod Base.n in
    if t =? 0 then Ok false
    else
      sG <- point_multiply G s ;;
      tP <- point_multiply public_key t ;;
      if is_None (to_point sG) || is_None (to_point tP) then Ok false
      else
        x1y1 <- point_add sG tP ;;
        match x1y1 with
        | None => Ok false
        | Some (x1, _) =>
            let R := (e + BigZ.to_Z x1) mod Base.n in
            Ok (R =? r)
        end.

End Hashing.

End Big.

(** ** Congruences

    [cong m u v]: [u] and [v] leave the same remainder modulo [m];
    [on_curve_at m a b x y]: the equation of the curve at [(x, y)], read
    modulo [m]. *)

Definition cong (m u v : Z) : Prop := u mod m = v mod m.

Definition on_curve_at (m a b x y : Z) : Prop :=
  cong m (y * y) (x * x * x + a * x + b).

(** * Properties *)

Lemma point_eqb_spec (p1 p2 : Point) : reflect (p1 = p2) (point_eqb p1 p2).
Proof.
  destruct p1 as [[x1 y1]|], p2 as [[x2 y2]|]; simpl; try (constructor; congruence).
  destruct (Z.eqb_spec x1 x2), (Z.eqb_spec y1 y2); simpl; constructor; congruence.
Qed.


(** ** [extended_gcd] and [mod_inverse] *)

Import Base.

Lemma extended_gcd_calls_more (d : nat) :
  forall a b r, extended_gcd_calls d a b = Some r ->
  forall d', (d <= d')%nat -> extended_gcd_calls d' a b = Some r.
Proof.
  induction d as [|d IH]; intros a b r H d' Hd; [discriminate|].
  destruct d' as [|d']; [lia|].
  simpl in *. destruct (a =? 0); [assumption|].
  destruct (extended_gcd_calls d (b mod a) a) as [[[g y] x]|] eqn:E; [|discriminate].
  rewrite (IH _ _ _ E d') by lia. assumption.
Qed.

Lemma mod_mod_halves (a a1 : Z) : 0 < a1 < a -> 0 <= a mod a1 /\ 2 * (a mod a1) < a.
Proof.
  intros H.
  pose proof (Z.mod_pos_bound a a1 ltac:(lia)) as Hb.
  pose proof (Z.div_mod a a1 ltac:(lia)) as Hd.
  assert (1 <= a / a1) by (apply Z.div_le_lower_bound; lia).
  nia.
Qed.

Lemma extended_gcd_calls_bits (m : nat) :
  forall a b d, 0 <= a < 2 ^ Z.of_nat m -> (S (2 * m) <= d)%nat ->
  exists r, extended_gcd_calls d a b = Some r.
Proof.
  induction m as [|m IH]; intros a b d Ha Hd.
  - destruct d as [|d]; [lia|]. simpl in *.
    replace a with 0 by lia. simpl. eauto.
  - destruct d as [|d]; [lia|]. simpl.
    destruct (Z.eqb_spec a 0) as [|Hne]; [eauto|].
    pose proof (Z.mod_pos_bound b a ltac:(lia)) as Ha1.
    destruct d as [|d]; [lia|]. simpl.
    destruct (Z.eqb_spec (b mod a) 0) as [|Hne1]; [eauto|].
    destruct (mod_mod_halves a (b mod a) ltac:(lia)) as [H0 H2].
    destruct (IH (a mod (b mod a)) (b mod a) d) as [[[g y] x] Hr].
    + rewrite Nat2Z.inj_succ, Z.pow_succ_r in Ha by lia. lia.
    + lia.
    + rewrite Hr. eauto.
Qed.

Lemma bit_length_bound (a : Z) : 0 <= a -> 0 <= bit_length a /\ a < 2 ^ bit_length a.
Proof.
  intros Ha. unfold bit_length.
  destruct (Z.eqb_spec a 0) as [->|Hne]; [split; [lia|reflexivity]|].
  rewrite Z.abs_eq by assumption.
  pose proof (Z.log2_nonneg a).
  pose proof (Z.log2_spec a ltac:(lia)) as Hl.
  replace (Z.log2 a + 1) with (Z.succ (Z.log2 a)) by lia. lia.
Qed.

(** Twice the bit length of the first argument, and one frame for the base
    case, are enough. *)
Lemma extended_gcd_calls_enough (frames : nat) (a b : Z) :
  0 <= a -> 2 * bit_length a + 1 <= Z.of_nat frames ->
  exists r, extended_gcd_calls frames a b = Some r.
Proof.
  intros Ha Hf.
  destruct (bit_length_bound a Ha) as [Hb Hp].
  apply extended_gcd_calls_bits with (m := Z.to_nat (bit_length a)).
  - rewrite Z2Nat.id by assumption. lia.
  - lia.
Qed.

Lemma extended_gcd_calls_bezout (d : nat) :
  forall a b g x y, extended_gcd_calls d a b = Some (g, x, y) -> a * x + b * y = g.
Proof.
  induction d as [|d IH]; intros a b g x y H; [discriminate|].
  simpl in H. destruct (Z.eqb_spec a 0) as [->|Hne].
  - injection H as <- <- <-. lia.
  - destruct (extended_gcd_calls d (b mod a) a) as [[[g' y'] x']|] eqn:E; [|discriminate].
    injection H as <- <- <-.
    apply IH in E.
    pose proof (Z.div_mod b a Hne). nia.
Qed.

Lemma extended_gcd_calls_gcd (d : nat) :
  forall a b g x y, 0 <= a -> 0 <= b ->
  extended_gcd_calls d a b = Some (g, x, y) -> g = Z.gcd a b.
Proof.
  induction d as [|d IH]; intros a b g x y Ha Hb H; [discriminate|].
  simpl in H. destruct (Z.eqb_spec a 0) as [->|Hne].
  - injection H as <- <- <-. simpl. symmetry. apply Z.abs_eq. assumption.
  - destruct (extended_gcd_calls d (b mod a) a) as [[[g' y'] x']|] eqn:E; [|discriminate].
    injection H as <- <- <-.
    apply IH in E; [|apply Z.mod_pos_bound; lia|lia].
    rewrite E. apply Z.gcd_mod. assumption.
Qed.


Lemma extended_gcd_some (frames : nat) (a b : Z) :
  0 <= a -> 0 <= b -> 2 * bit_length a + 1 <= Z.of_nat frames ->
  exists x y,
    extended_gcd frames a b = Ok (Z.gcd a b, x, y) /\ a * x + b * y = Z.gcd a b.
Proof.
  intros Ha Hb Hf. unfold extended_gcd.
  destruct (extended_gcd_calls_enough frames a b Ha Hf) as [[[g x] y] E].
  pose proof (extended_gcd_calls_gcd _ _ _ _ _ _ Ha Hb E) as Hg.
  pose proof (extended_gcd_calls_bezout _ _ _ _ _ _ E) as Hz.
  subst g. exists x, y. rewrite E. split; [reflexivity|assumption].
Qed.

(** The frames that [mod_inverse] has are enough for a first argument of
    256 bits. *)
Lemma mod_inverse_frames_256 (a : Z) :
  0 <= a < 2 ^ 256 -> 2 * bit_length a + 1 <= Z.of_nat mod_inverse_frames.
Proof.
  intros Ha. change (Z.of_nat mod_inverse_frames) with 998.
  unfold bit_length. destruct (Z.eqb_spec a 0); [lia|].
  rewrite Z.abs_eq by lia.
  assert (Z.log2 a < 256) by (apply Z.log2_lt_pow2; lia). lia.
Qed.

(** What [mod_inverse] answers on an argument of 256 bits. *)
Lemma mod_inverse_coprime (a m : Z) :
  0 <= a < 2 ^ 256 -> 0 < m -> Z.gcd a m = 1 ->
  exists i, mod_inverse a m = Ok i /\ 0 <= i < m /\ (a * i) mod m = 1 mod m.
Proof.
  intros Ha Hm Hg. unfold mod_inverse.
  destruct (extended_gcd_some mod_inverse_frames a m ltac:(lia) ltac:(lia)
              (mod_inverse_frames_256 a Ha)) as (x & y & -> & Hz).
  rewrite Hg in *. cbn [bind]. change (negb (1 =? 1)) with false. cbv iota.
  exists (x mod m). split; [reflexivity|].
  split; [apply Z.mod_pos_bound; assumption|].
  rewrite Z.mul_mod_idemp_r by lia.
  replace (a * x) with (1 + (- y) * m) by lia.
  apply Z.mod_add. lia.
Qed.

Lemma mod_inverse_not_coprime (a m : Z) :
  0 <= a < 2 ^ 256 -> 0 < m -> Z.gcd a m <> 1 -> mod_inverse a m = Raise ValueError.
Proof.
  intros Ha Hm Hg. unfold mod_inverse.
  destruct (extended_gcd_some mod_inverse_frames a m ltac:(lia) ltac:(lia)
              (mod_inverse_frames_256 a Ha)) as (x & y & -> & Hz).
  cbn [bind].
  destruct (Z.eqb_spec (Z.gcd a m) 1); [contradiction|reflexivity].
Qed.

(** Whatever the arguments, a value that [mod_inverse] returns is an inverse. *)
Lemma mod_inverse_ok (a m i : Z) :
  0 <= a -> 0 < m -> mod_inverse a m = Ok i ->
  0 <= i < m /\ (a * i) mod m = 1 mod m.
Proof.
  intros _ Hm. unfold mod_inverse, extended_gcd.
  destruct (extended_gcd_calls mod_inverse_frames a m) as [[[g x] y]|] eqn:E;
    [|discriminate].
  cbn [bind]. destruct (Z.eqb_spec g 1) as [->|]; [|discriminate].
  cbn [negb]. intros H. injection H as <-.
  apply extended_gcd_calls_bezout in E.
  split; [apply Z.mod_pos_bound; assumption|].
  rewrite Z.mul_mod_idemp_r by lia.
  replace (a * x) with (1 + (- y) * m) by lia.
  apply Z.mod_add. lia.
Qed.



(** *** The depth of the recursion *)

Lemma fibonacci_step (k : nat) :
  fibonacci (S (S k)) = fibonacci k + fibonacci (S k).
Proof.
  unfold fibonacci. cbn [fibonacci_pair].
  destruct (fibonacci_pair k) as [x y]. reflexivity.
Qed.

Lemma fibonacci_pos (k : nat) : 0 <= fibonacci k /\ 0 < fibonacci (S k).
Proof.
  induction k as [|k [IH0 IH1]].
  - split; [discriminate|reflexivity].
  - rewrite fibonacci_step. lia.
Qed.

(** On [F k] and [F (k+1)] the recursion is [k] calls deep: every quotient
    is 1 and the arguments go down the sequence one step at a time. *)
Lemma extended_gcd_calls_fibonacci (k : nat) :
  (2 <= k)%nat ->
  forall frames, (frames < k)%nat ->
  extended_gcd_calls frames (fibonacci k) (fibonacci (S k)) = None.
Proof.
  induction k as [|k IH]; intros Hk frames Hf; [lia|].
  destruct frames as [|frames]; [reflexivity|].
  cbn [extended_gcd_calls].
  pose proof (fibonacci_pos k) as [Hk0 Hk1].
  destruct (Z.eqb_spec (fibonacci (S k)) 0); [lia|].
  destruct (Nat.eq_dec k 1) as [->|Hne].
  - assert (frames = O) by lia. subst frames. reflexivity.
  - assert (Hlt : 0 < fibonacci k).
    { destruct k as [|k']; [lia|]. apply fibonacci_pos. }
    assert (Hmod : fibonacci (S (S k)) mod fibonacci (S k) = fibonacci k).
    { rewrite fibonacci_step.
      replace (fibonacci k + fibonacci (S k))
        with (fibonacci k + 1 * fibonacci (S k)) by ring.
      rewrite Z.mod_add by lia. apply Z.mod_small.
      destruct k as [|[|k']]; [lia|lia|].
      rewrite (fibonacci_step (S k')).
      pose proof (fibonacci_pos k') as [_ H1]. lia. }
    rewrite Hmod, IH by lia. reflexivity.
Qed.

Lemma fibonacci_coprime (k : nat) : Z.gcd (fibonacci k) (fibonacci (S k)) = 1.
Proof.
  induction k as [|k IH]; [reflexivity|].
  rewrite fibonacci_step.
  replace (fibonacci k + fibonacci (S k))
    with (fibonacci k + 1 * fibonacci (S k)) by ring.
  rewrite Z.gcd_add_mult_diag_r, Z.gcd_comm. assumption.
Qed.

(** C8, amended. For non-negative [a] and [b], and an interpreter that
    accepts [2 * a.bit_length() + 1] more nested calls, [extended_gcd(a, b)]
    terminates and returns [(g, x, y)] with [a*x + b*y = g] and
    [g = gcd(a, b)]. *)
Theorem extended_gcd_terminates_with_bezout (frames : nat) (a b : Z) :
  0 <= a -> 0 <= b -> 2 * bit_length a + 1 <= Z.of_nat frames ->
  exists g x y,
    extended_gcd frames a b = Ok (g, x, y) /\
    a * x + b * y = g /\
    g = Z.gcd a b.
Proof.
  intros Ha Hb Hf.
  destruct (extended_gcd_some frames a b Ha Hb Hf) as (x & y & E & Hz).
  exists (Z.gcd a b), x, y. split; [assumption|]. split; [assumption|reflexivity].
Qed.

Lemma extended_gcd_terminates_with_bezout_witness :
  exists g x y,
    extended_gcd 17 240 46 = Ok (g, x, y) /\
    240 * x + 46 * y = g /\
    g = Z.gcd 240 46.
Proof.
  apply (extended_gcd_terminates_with_bezout 17 240 46).
  - lia.
  - lia.
  - vm_compute. discriminate.
Defined.

(** C8 as stated, for all non-negative arguments, is refuted by the
    Fibonacci numbers [F 1000] and [F 1001]: the recursion on them is 1000
    calls deep, and an interpreter that accepts 1000 nested calls, the one
    of the caller among them, raises RecursionError. *)
Lemma extended_gcd_fibonacci_1000 :
  0 <= fibonacci 1000 /\ 0 <= fibonacci 1001 /\
  (forall frames, (frames < recursion_limit)%nat ->
     extended_gcd frames (fibonacci 1000) (fibonacci 1001)
     = Raise RecursionError).
Proof.
  split; [apply fibonacci_pos|]. split; [apply fibonacci_pos|].
  intros frames Hf. unfold extended_gcd.
  rewrite (extended_gcd_calls_fibonacci 1000); [reflexivity| |exact Hf].
  apply Nat.leb_le. reflexivity.
Qed.

(** ** The imports

    Line 29 of sm2_optimized.py raises NameError: [point_double] is not
    bound when [precompute_g_table] calls it. *)

Lemma G_TABLE_unbound : Optimized.G_TABLE = Raise NameError.
Proof. reflexivity. Qed.

(** So the import of sm2_optimized.py raises NameError, and with it every
    call of a function of that module. *)
Lemma optimized_imported_raises (A : Type) (body : list Point -> outcome A) :
  Optimized.imported body = Raise NameError.
Proof. reflexivity. Qed.

(** The same for sm2_misuse.py, which imports sm2_optimized.py. *)
Lemma misuse_imported_raises (A : Type) (body : outcome A) :
  Misuse.imported body = Raise NameError.
Proof. reflexivity. Qed.

(** The literal of line 116 is not ASCII: satoshi_forgery.py is rejected by
    the compiler. *)
Lemma test_message_rejected : Forgery.test_message = Raise SyntaxError.
Proof. reflexivity. Qed.

Lemma forgery_imported_raises (A : Type) (body : outcome A) :
  Forgery.imported body = Raise SyntaxError.
Proof. reflexivity. Qed.

(** ** [point_add] *)

Section Chord.

Variable m : Z.
Hypothesis m_pos : 0 < m.



End Chord.

Lemma p_pos : 0 < p.
Proof. reflexivity. Qed.

Lemma n_pos : 0 < n.
Proof. reflexivity. Qed.


Lemma n_bound : 0 < n <= 2 ^ 256.
Proof. split; [reflexivity|discriminate]. Qed.





(** ** The byte encodings and [calculate_z] *)

Lemma big_endian_fixed_width (width : nat) :
  forall v, big_endian width v = Spec.fixed_width width v.
Proof.
  unfold Spec.fixed_width.
  induction width as [|w IH]; intros v; [reflexivity|].
  cbn [big_endian]. rewrite IH, seq_S, map_app. cbn [map Nat.add].
  f_equal.
  - apply map_ext_in. intros i Hi. apply in_seq in Hi. f_equal.
    replace (S w - 1 - i)%nat with (S (w - 1 - i)) by lia.
    rewrite Nat2Z.inj_succ, Z.pow_succ_r by lia.
    rewrite Z.div_div by lia. reflexivity.
  - replace (S w - 1 - w)%nat with O by lia. rewrite Z.div_1_r. reflexivity.
Qed.

Lemma big_endian_length (width : nat) : forall v, List.length (big_endian width v) = width.
Proof.
  induction width as [|w IH]; intros v; [reflexivity|].
  cbn [big_endian]. rewrite length_app, IH. simpl. lia.
Qed.

Lemma to_bytes_in_range (v : Z) (width : nat) :
  0 <= v < 256 ^ Z.of_nat width -> to_bytes v width = Ok (Spec.fixed_width width v).
Proof.
  intros H. unfold to_bytes.
  destruct (Z.ltb_spec v 0); [lia|].
  destruct (Z.leb_spec (256 ^ Z.of_nat width) v); [lia|].
  simpl. f_equal. apply big_endian_fixed_width.
Qed.

Lemma to_bytes_too_long (v : Z) (width : nat) :
  256 ^ Z.of_nat width <= v -> to_bytes v width = Raise OverflowError.
Proof.
  intros H. unfold to_bytes.
  destruct (Z.leb_spec (256 ^ Z.of_nat width) v); [|lia].
  rewrite orb_true_r. reflexivity.
Qed.

Lemma Z_of_byte_of_Z (v : Z) : Z_of_byte (byte_of_Z v) = v mod 256.
Proof.
  unfold Z_of_byte, byte_of_Z.
  assert (H : forall c, Byte.to_N (byte_of_ascii c) = N_of_ascii c).
  { intros [[] [] [] [] [] [] [] []]; reflexivity. }
  rewrite H, N_ascii_embedding.
  - apply Z2N.id. apply Z.mod_pos_bound. lia.
  - pose proof (Z.mod_pos_bound v 256 ltac:(lia)). lia.
Qed.

Lemma from_bytes_app (x : bytes) (c : byte) :
  from_bytes (x ++ [c]) = from_bytes x * 256 + Z_of_byte c.
Proof.
  unfold from_bytes. rewrite fold_left_app. reflexivity.
Qed.

(** Decoding what [to_bytes] wrote gives the integer back. *)
Lemma from_bytes_big_endian (width : nat) :
  forall v, 0 <= v < 256 ^ Z.of_nat width -> from_bytes (big_endian width v) = v.
Proof.
  induction width as [|w IH]; intros v Hv.
  - simpl in *. unfold from_bytes. simpl. lia.
  - cbn [big_endian]. rewrite from_bytes_app, Z_of_byte_of_Z, IH.
    + pose proof (Z.div_mod v 256 ltac:(lia)). lia.
    + rewrite Nat2Z.inj_succ, Z.pow_succ_r in Hv by lia.
      split; [apply Z.div_pos; lia|apply Z.div_lt_upper_bound; lia].
Qed.

Lemma constants_fit_32_bytes :
  0 <= a < 256 ^ Z.of_nat 32 /\ 0 <= b < 256 ^ Z.of_nat 32 /\
  0 <= Gx < 256 ^ Z.of_nat 32 /\ 0 <= Gy < 256 ^ Z.of_nat 32.
Proof. repeat split; (discriminate || reflexivity). Qed.

(** What [calculate_z] of sm2_base.py hashes, for an identity of fewer than
    8192 bytes (so that its bit length fits the two bytes of ENTLA) and a
    public key with coordinates in [0, 2^256). *)
Lemma base_calculate_z_encoding (sm3_hash : bytes -> bytes) (id : bytes) (Px Py : Z) :
  Z.of_nat (List.length id) * 8 < 65536 ->
  0 <= Px < 2 ^ 256 -> 0 <= Py < 2 ^ 256 ->
  Base.calculate_z sm3_hash id (Some (Px, Py)) = Ok (sm3_hash (Spec.z_preimage id Px Py)).
Proof.
  intros Hid HPx HPy.
  destruct constants_fit_32_bytes as (Ha & Hb & HGx & HGy).
  assert (He : to_bytes (Z.of_nat (List.length id) * 8) 2
               = Ok (Spec.fixed_width 2 (Z.of_nat (List.length id) * 8))).
  { apply to_bytes_in_range. change (256 ^ Z.of_nat 2) with 65536. lia. }
  assert (HPx' : to_bytes Px 32 = Ok (Spec.fixed_width 32 Px)).
  { apply to_bytes_in_range. change (256 ^ Z.of_nat 32) with (2 ^ 256). lia. }
  assert (HPy' : to_bytes Py 32 = Ok (Spec.fixed_width 32 Py)).
  { apply to_bytes_in_range. change (256 ^ Z.of_nat 32) with (2 ^ 256). lia. }
  unfold Base.calculate_z.
  rewrite He, !(to_bytes_in_range _ 32) by assumption.
  cbn [bind unpack]. rewrite HPx'. cbn [bind]. rewrite HPy'. cbn [bind].
  unfold Spec.z_preimage. rewrite <- !app_assoc. reflexivity.
Qed.

Lemma z_preimage_length (id : bytes) (Px Py : Z) :
  List.length (Spec.z_preimage id Px Py) = (2 + List.length id + 192)%nat.
Proof.
  unfold Spec.z_preimage. rewrite !length_app, <- !big_endian_fixed_width.
  rewrite !big_endian_length. lia.
Qed.

(** The body of [calculate_z] in sm2_optimized.py is the function of
    sm2_base.py: on every identity and every key it gives the same digest or
    raises the same exception. *)
Lemma optimized_calculate_z_body_is_base (sm3_hash : bytes -> bytes)
    (id : bytes) (public_key : Point) :
  Optimized.calculate_z_body sm3_hash id public_key
  = Base.calculate_z sm3_hash id public_key.
Proof.
  unfold Optimized.calculate_z_body, Base.calculate_z, Optimized.extend. cbv zeta.
  destruct (to_bytes (Z.of_nat (List.length id) * 8) 2); [|reflexivity]. cbn [bind].
  destruct (to_bytes a 32); [|reflexivity]. cbn [bind].
  destruct (to_bytes b 32); [|reflexivity]. cbn [bind].
  destruct (to_bytes Gx 32); [|reflexivity]. cbn [bind].
  destruct (to_bytes Gy 32); [|reflexivity]. cbn [bind].
  destruct (unpack public_key) as [[Px Py]|]; [|reflexivity]. cbn [bind].
  destruct (to_bytes Px 32); [|reflexivity]. cbn [bind].
  destruct (to_bytes Py 32); [|reflexivity]. cbn [bind].
  reflexivity.
Qed.

Lemma optimized_calculate_z_raises (sm3_hash : bytes -> bytes)
    (id : bytes) (public_key : Point) :
  Optimized.calculate_z sm3_hash id public_key = Raise NameError.
Proof. apply optimized_imported_raises. Qed.

(** C7, the code at a failing input: for an identity of fewer than 8192
    bytes and a public key with coordinates in [0, 2^256), [calculate_z] of
    sm2_base.py returns the digest of the concatenation ENTLA, ID, a, b, Gx,
    Gy, Px, Py of the specification, which is [2 + len(ID) + 192] bytes
    long, and [calculate_z] of sm2_optimized.py returns no digest: the
    import of the module raises NameError. *)
Theorem calculate_z_optimized_raises (sm3_hash : bytes -> bytes) (id : bytes) (Px Py : Z) :
  Z.of_nat (List.length id) * 8 < 65536 ->
  0 <= Px < 2 ^ 256 -> 0 <= Py < 2 ^ 256 ->
  Base.calculate_z sm3_hash id (Some (Px, Py)) = Ok (sm3_hash (Spec.z_preimage id Px Py)) /\
  List.length (Spec.z_preimage id Px Py) = (2 + List.length id + 192)%nat /\
  Optimized.calculate_z sm3_hash id (Some (Px, Py)) = Raise NameError.
Proof.
  intros Hid HPx HPy. split; [|split].
  - apply base_calculate_z_encoding; assumption.
  - apply z_preimage_length.
  - apply optimized_calculate_z_raises.
Qed.

Lemma calculate_z_optimized_raises_witness :
  let id := [x41; x6c; x69; x63; x65] in
  Base.calculate_z (fun data => data) id (Some (Gx, Gy))
    = Ok (Spec.z_preimage id Gx Gy) /\
  List.length (Spec.z_preimage id Gx Gy) = (2 + List.length id + 192)%nat /\
  Optimized.calculate_z (fun data => data) id (Some (Gx, Gy)) = Raise NameError.
Proof.
  apply (calculate_z_optimized_raises (fun data => data) [x41; x6c; x69; x63; x65] Gx Gy).
  - reflexivity.
  - split; [discriminate|reflexivity].
  - split; [discriminate|reflexivity].
Defined.

(** Past that length [calculate_z] of sm2_base.py raises OverflowError, at
    the conversion of ENTLA. *)
Lemma calculate_z_overflow (sm3_hash : bytes -> bytes) (id : bytes) (public_key : Point) :
  65536 <= Z.of_nat (List.length id) * 8 ->
  Base.calculate_z sm3_hash id public_key = Raise OverflowError.
Proof.
  intros H. unfold Base.calculate_z.
  rewrite to_bytes_too_long by exact H. reflexivity.
Qed.

(** ** The loops of the scalar multiplications *)

Lemma bit_length_pos (k : Z) : 0 < k -> 0 < bit_length k.
Proof.
  intros H. unfold bit_length.
  destruct (Z.eqb_spec k 0); [lia|].
  pose proof (Z.log2_nonneg (Z.abs k)). lia.
Qed.

Lemma bit_length_shiftr (k : Z) :
  1 < k -> bit_length (Z.shiftr k 1) = bit_length k - 1.
Proof.
  intros H. unfold bit_length.
  assert (Hs : 0 < Z.shiftr k 1).
  { rewrite Z.shiftr_div_pow2 by lia. apply Z.div_str_pos. simpl. lia. }
  destruct (Z.eqb_spec (Z.shiftr k 1) 0); [lia|].
  destruct (Z.eqb_spec k 0); [lia|].
  rewrite !Z.abs_eq by lia.
  rewrite Z.log2_shiftr by lia.
  assert (1 <= Z.log2 k) by (apply Z.log2_le_pow2; simpl; lia).
  lia.
Qed.

Lemma bit_length_half (k : Z) : 0 < k -> bit_length (k / 2) = bit_length k - 1.
Proof.
  intros Hk. destruct (Z.eq_dec k 1) as [->|Hne]; [reflexivity|].
  rewrite <- (bit_length_shiftr k) by lia.
  rewrite Z.shiftr_div_pow2 by lia. reflexivity.
Qed.

(** The loops stop on their own test, never on the iteration count of the
    embedding: more iterations give the same outcome. *)
Lemma point_multiply_loop_iterations (iterations : nat) :
  forall k result current extra,
    (Z.to_nat (bit_length k) <= iterations)%nat ->
    Base.point_multiply_loop (iterations + extra) k result current
    = Base.point_multiply_loop iterations k result current.
Proof.
  induction iterations as [|it IH]; intros k res cur extra Hit.
  - assert (Hk : k <= 0).
    { destruct (Z_le_gt_dec k 0); [assumption|].
      pose proof (bit_length_pos k ltac:(lia)). lia. }
    destruct extra; [reflexivity|]. cbn [Nat.add Base.point_multiply_loop].
    destruct (Z.gtb_spec k 0); [lia|reflexivity].
  - cbn [Nat.add Base.point_multiply_loop].
    destruct (Z.gtb_spec k 0) as [Hk|]; [|reflexivity].
    destruct (if k mod 2 =? 1 then Base.point_add res cur else Ok res); [|reflexivity].
    cbn [bind]. destruct (Base.point_add cur cur); [|reflexivity].
    cbn [bind]. apply IH. rewrite bit_length_half by assumption. lia.
Qed.

Lemma table_loop_iterations
    (add : Point -> Point -> outcome Point) (table : list Point)
    (iterations : nat) :
  forall k current_bit result extra,
    (Z.to_nat (bit_length k) <= iterations)%nat ->
    Optimized.table_loop add table (iterations + extra) k current_bit result
    = Optimized.table_loop add table iterations k current_bit result.
Proof.
  induction iterations as [|it IH]; intros k cb res extra Hit.
  - assert (Hk : k <= 0).
    { destruct (Z_le_gt_dec k 0); [assumption|].
      pose proof (bit_length_pos k ltac:(lia)). lia. }
    destruct extra; [reflexivity|]. cbn [Nat.add Optimized.table_loop].
    destruct (Z.gtb_spec k 0); [lia|reflexivity].
  - cbn [Nat.add Optimized.table_loop].
    destruct (Z.gtb_spec k 0) as [Hk|]; [|reflexivity].
    match goal with |- bind ?c _ = _ => destruct c; [|reflexivity] end.
    cbn [bind]. apply IH.
    rewrite Z.shiftr_div_pow2 by lia. change (2 ^ 1) with 2.
    rewrite bit_length_half by assumption. lia.
Qed.

Lemma window_loop_iterations
    (double : Point -> outcome Point) (add : Point -> Point -> outcome Point)
    (table : list Point) (k : Z) (iterations : nat) :
  forall i result extra,
    i < Z.of_nat iterations ->
    Optimized.window_loop double add table (iterations + extra) k i result
    = Optimized.window_loop double add table iterations k i result.
Proof.
  induction iterations as [|it IH]; intros i res extra Hit.
  - destruct extra; [reflexivity|]. cbn [Nat.add Optimized.window_loop].
    destruct (Z.geb_spec i 0); [lia|reflexivity].
  - cbn [Nat.add Optimized.window_loop].
    destruct (Z.geb_spec i 0) as [Hi|]; [|reflexivity].
    destruct (negb (Z.land (Z.shiftr k i) 1 =? 0)).
    + destruct (index table (Optimized.window_bits k i)) as [entry|]; [|reflexivity].
      cbn [bind].
      destruct (if is_None res then Ok entry else add res entry) as [res'|];
        [|reflexivity].
      cbn [bind].
      destruct (if (i - 4 >=? 0) && negb (is_None res') then double res' else Ok res');
        [|reflexivity].
      cbn [bind]. apply IH. lia.
    + cbn [bind].
      destruct (if (i - 1 >=? 0) && negb (is_None res) then double res else Ok res);
        [|reflexivity].
      cbn [bind]. apply IH. lia.
Qed.

(** ** The functions of sm2_optimized.py, as a program calls them *)

Lemma optimized_point_multiply_raises (q : Point) (k : Z) :
  Optimized.point_multiply q k = Raise NameError.
Proof. apply optimized_imported_raises. Qed.

Lemma optimized_verify_unavailable (sm3_hash : bytes -> bytes)
    (public_key : Point) (message z : bytes) (r s : Z) :
  Optimized.verify sm3_hash public_key message z r s = Raise NameError.
Proof. apply optimized_imported_raises. Qed.

Lemma optimized_verify_never_true (sm3_hash : bytes -> bytes)
    (public_key : Point) (message z : bytes) (r s : Z) :
  Optimized.verify sm3_hash public_key message z r s <> Ok true.
Proof.
  rewrite optimized_verify_unavailable. discriminate.
Qed.

(** Moving line 29 below [def point_double] would not build the table
    either: the first doubling raises TypeError. *)
Lemma precompute_g_table_with_point_double :
  Optimized.precompute_g_table (Some Optimized.point_double_body) = Raise TypeError.
Proof. reflexivity. Qed.

(** And with [point_double] as it is written the windowed branch of
    [point_multiply] raises TypeError while it fills its table, whatever the
    addition and the generator table are. *)
Lemma windowed_branch_raises (add : Point -> Point -> outcome Point)
    (table : list Point) (x y k : Z) :
  k <> 0 -> point_eqb (Some (x, y)) (Some (Gx, Gy)) = false ->
  Optimized.point_multiply_with Optimized.point_double_body add table (Some (x, y)) k
  = Raise TypeError.
Proof.
  intros Hk HG. unfold Optimized.point_multiply_with.
  destruct (Z.eqb_spec k 0); [contradiction|].
  rewrite HG. reflexivity.
Qed.

(** ** The verifiers *)

(** The base verifier answers [False] when [r] or [s] is outside [1, n-1]. *)
Lemma verify_rejects_out_of_range (sm3_hash : bytes -> bytes)
    (public_key : Point) (message z : bytes) (r s : Z) :
  ~ (1 <= r <= n - 1 /\ 1 <= s <= n - 1) ->
  Base.verify sm3_hash public_key message z r s = Ok false.
Proof.
  intros H. unfold Base.verify.
  destruct (Z.leb_spec 1 r), (Z.leb_spec r (n - 1)),
           (Z.leb_spec 1 s), (Z.leb_spec s (n - 1));
    cbn [andb negb]; try reflexivity.
  exfalso. apply H. lia.
Qed.

(** The base verifier answers [False] when [t = (r + s) mod n] is zero. *)
Lemma verify_rejects_zero_t (sm3_hash : bytes -> bytes)
    (public_key : Point) (message z : bytes) (r s : Z) :
  (r + s) mod n = 0 ->
  Base.verify sm3_hash public_key message z r s = Ok false.
Proof.
  intros H. unfold Base.verify.
  destruct (negb _); [reflexivity|].
  cbv zeta. rewrite H. reflexivity.
Qed.

(** C6, the code at a failing input: on every signature that passes the
    range check and the [t] check the optimized [verify] raises NameError
    instead of returning a boolean. *)
Theorem optimized_verify_raises (sm3_hash : bytes -> bytes)
    (public_key : Point) (message z : bytes) (r s : Z) :
  1 <= r <= n - 1 -> 1 <= s <= n - 1 -> (r + s) mod n <> 0 ->
  Optimized.verify sm3_hash public_key message z r s = Raise NameError.
Proof.
  intros _ _ _. apply optimized_verify_unavailable.
Qed.

Lemma optimized_verify_raises_witness :
  Optimized.verify (fun data => data) (Some (Gx, Gy)) [] [] 1 1 = Raise NameError.
Proof.
  apply (optimized_verify_raises (fun data => data) (Some (Gx, Gy)) [] [] 1 1).
  - split; [discriminate|discriminate].
  - split; [discriminate|discriminate].
  - discriminate.
Defined.

(** The body of [verify_forgery] is the body of the optimized [verify],
    statement for statement: bound to the same point arithmetic, whatever it
    is, the two make the same range check, the same [t] check, the same two
    multiplications and addition, the same identity checks and the same
    final comparison. *)
Lemma verify_forgery_body_is_verify_body (sm3_hash : bytes -> bytes)
    (point_multiply : Point -> Z -> outcome Point)
    (point_add : Point -> Point -> outcome Point)
    (public_key : Point) (message z : bytes) (r s : Z) :
  Forgery.verify_forgery_with sm3_hash point_multiply point_add message z r s public_key
  = Optimized.verify_with sm3_hash point_multiply point_add public_key message z r s.
Proof.
  unfold Forgery.verify_forgery_with, Optimized.verify_with.
  destruct (negb _); [reflexivity|].
  cbv zeta.
  destruct (_ =? 0); [reflexivity|].
  destruct (point_multiply (Some (Gx, Gy)) s) as [sG|]; [|reflexivity].
  destruct (point_multiply public_key ((r + s) mod n)) as [tP|]; [|reflexivity].
  cbn [bind].
  destruct (is_None sG || is_None tP); [reflexivity|].
  destruct (point_add sG tP) as [[[x1 y1]|]|]; reflexivity.
Qed.

(** C9, the code at a failing input: [verify_forgery] returns no boolean,
    for any argument.  satoshi_forgery.py is rejected by the compiler
    (SyntaxError, the literal of line 116), and the optimized [verify] it is
    compared with raises NameError, at the import of sm2_optimized.py. *)
Theorem verify_forgery_raises (sm3_hash : bytes -> bytes)
    (public_key : Point) (message z : bytes) (r s : Z) :
  Forgery.verify_forgery sm3_hash message z r s public_key = Raise SyntaxError /\
  Optimized.verify sm3_hash public_key message z r s = Raise NameError.
Proof.
  split.
  - apply forgery_imported_raises.
  - apply optimized_verify_unavailable.
Qed.

(** The base verifier reads the hash only through the digest of [z || message]. *)
Lemma base_verify_digest_only (sm3_hash sm3_hash' : bytes -> bytes)
    (public_key : Point) (message z message' z' : bytes) (r s : Z) :
  from_bytes (sm3_hash (z ++ message)) = from_bytes (sm3_hash' (z' ++ message')) ->
  Base.verify sm3_hash public_key message z r s
  = Base.verify sm3_hash' public_key message' z' r s.
Proof.
  intros H. unfold Base.verify. cbv zeta. rewrite H. reflexivity.
Qed.

(** ** The scalar multiplications *)

Lemma demo_public_key : Base.point_multiply (Some (Gx, Gy)) Demo.d = Ok Demo.P.
Proof. vm_compute. reflexivity. Qed.

(** C3, the code at failing inputs: for the scalar 1 the base method returns
    the point itself, and the optimized method returns no point, on the
    generator or on another point: the import of sm2_optimized.py raises
    NameError. *)
Theorem point_multiply_disagreement :
  Base.point_multiply (Some (Gx, Gy)) 1 = Ok (Some (Gx, Gy)) /\
  Optimized.point_multiply (Some (Gx, Gy)) 1 = Raise NameError /\
  Base.point_multiply Demo.P 1 = Ok Demo.P /\
  Optimized.point_multiply Demo.P 1 = Raise NameError.
Proof.
  split; [|split; [|split]].
  - vm_compute. reflexivity.
  - apply optimized_point_multiply_raises.
  - vm_compute. reflexivity.
  - apply optimized_point_multiply_raises.
Qed.

(** The window loop itself, run on the arithmetic of sm2_base.py: a window
    that reaches below bit 0 is zero-filled, so the scalar 1 selects the
    entry [8*P], and after a window the accumulator is doubled once, not
    four times, so the scalar 17 gives [24*P]. *)
Lemma window_loop_on_base_arithmetic :
  Optimized.multiply_windowed Demo.base_double Base.point_add Demo.P 1
    = Base.point_multiply Demo.P 8 /\
  Optimized.multiply_windowed Demo.base_double Base.point_add Demo.P 17
    = Base.point_multiply Demo.P 24 /\
  Base.point_multiply Demo.P 8 <> Base.point_multiply Demo.P 1 /\
  Base.point_multiply Demo.P 24 <> Base.point_multiply Demo.P 17.
Proof.
  split; [|split; [|split]]; vm_compute; (reflexivity || discriminate).
Qed.

(** ** Scenario 1: the nonce used twice *)

Section ReusedNonce.

Variable m : Z.
Hypothesis m_pos : 0 < m.

(** What ties the numerator and the denominator of the recovery together,
    whatever [inv_1d] is. *)
Lemma reused_nonce_identity (d k e1 e2 x1 inv_1d : Z) :
  let r1 := (e1 + x1) mod m in
  let s1 := (inv_1d * (k - r1 * d)) mod m in
  let r2 := (e2 + x1) mod m in
  let s2 := (inv_1d * (k - r2 * d)) mod m in
  let numerator := ((s1 - s2) * (e1 - e2)) mod m in
  let denominator := (s2 * r1 - s1 * r2) mod m in
  (numerator * k + d * (e1 - e2) * denominator) mod m = 0.
Proof.
  intros. subst numerator denominator s1 s2 r1 r2.
  rewrite <- (Z.mod_0_l m) by lia.
  Z.mod_equality.
Qed.

Lemma recovered_key_condition (d k e1 e2 numerator denominator inverse : Z) :
  (numerator * k + d * (e1 - e2) * denominator) mod m = 0 ->
  (denominator * inverse) mod m = 1 mod m ->
  (numerator * inverse) mod m = d ->
  (d * (k + e1 - e2)) mod m = 0.
Proof.
  intros HA Hinv Hd.
  assert (Hd' : (numerator * inverse) mod m = d mod m).
  { rewrite <- Hd. rewrite Z.mod_mod by lia. reflexivity. }
  rewrite <- (Z.mod_0_l m) in HA by lia.
  apply Z.cong_iff_ex in HA, Hinv, Hd'.
  destruct HA as [qa Ha], Hinv as [qi Hi], Hd' as [qd Hqd].
  rewrite <- (Z.mod_0_l m) by lia.
  apply Z.cong_iff_ex.
  exists (inverse * qa + inverse * k * (numerator * qi - qd * denominator)
          - d * (k + e1 - e2) * qi).
  assert (E1 : d * (k + e1 - e2) * (denominator * inverse - 1)
               = d * (k + e1 - e2) * (qi * m)) by (rewrite Hi; reflexivity).
  assert (E2 : inverse * (numerator * k + d * (e1 - e2) * denominator - 0)
               = inverse * (qa * m)) by (rewrite Ha; reflexivity).
  assert (E3 : inverse * k * denominator * (numerator * inverse - d)
               = inverse * k * denominator * (qd * m)) by (rewrite Hqd; reflexivity).
  assert (E4 : inverse * k * numerator * (denominator * inverse - 1)
               = inverse * k * numerator * (qi * m)) by (rewrite Hi; reflexivity).
  clear Ha Hi Hqd Hd.
  ring_simplify. ring_simplify in E1. ring_simplify in E2.
  ring_simplify in E3. ring_simplify in E4. lia.
Qed.

End ReusedNonce.

(** The recovery of lines 43-52 returns the key only when
    [d * (k + e1 - e2)] is a multiple of [n]. *)
Lemma scenario1_recover_success (d k e1 e2 x1 d_recovered : Z) :
  Misuse.scenario1_recover d k e1 e2 x1 = Ok (d_recovered, true) ->
  (d * (k + e1 - e2)) mod n = 0.
Proof.
  unfold Misuse.scenario1_recover.
  destruct (mod_inverse (1 + d) n) as [inv_1d|]; [|discriminate].
  cbn [bind]. cbv zeta.
  pose proof (reused_nonce_identity n n_pos d k e1 e2 x1 inv_1d) as HA.
  cbv zeta in HA. revert HA.
  set (numerator := ((_ - _) * (e1 - e2)) mod n).
  set (denominator := (_ - _) mod n).
  intros HA.
  destruct (denominator =? 0); [discriminate|].
  destruct (mod_inverse denominator n) as [inverse|] eqn:E; [|discriminate].
  cbn [bind]. intros H. injection H as Hd Hs.
  apply Z.eqb_eq in Hs. subst d_recovered.
  apply mod_inverse_ok in E; [|apply Z.mod_pos_bound; exact n_pos|exact n_pos].
  exact (recovered_key_condition n n_pos d k e1 e2 _ _ _ HA (proj2 E) Hs).
Qed.

(** So for a key prime to [n] the recovery needs [k = e2 - e1] modulo [n]. *)
Lemma scenario1_recover_needs_special_nonce (d k e1 e2 x1 d_recovered : Z) :
  Z.gcd d n = 1 ->
  Misuse.scenario1_recover d k e1 e2 x1 = Ok (d_recovered, true) ->
  (k + e1 - e2) mod n = 0.
Proof.
  intros Hg H. apply scenario1_recover_success in H.
  apply Z.mod_divide in H; [|discriminate].
  apply Z.mod_divide; [discriminate|].
  apply Z.gauss with (m := d); [assumption|].
  rewrite Z.gcd_comm. assumption.
Qed.

(** On the key 2 and the nonce 5, with the digests 1 and 2, the value
    recovered from the two signatures is not the key. *)
Lemma scenario1_recover_example :
  Base.point_multiply (Some (Gx, Gy)) Demo.k
  = Ok (Some (Demo.x1,
              34023782933972387894878477359310186019819218172080033126273551504796574001979)) /\
  Z.gcd Demo.d n = 1 /\
  Misuse.scenario1_recover Demo.d Demo.k 1 2 Demo.x1
  = Ok (48220561607396077108548937212175917132735715758762739244449332201064237025222,
        false).
Proof.
  split; [|split]; vm_compute; reflexivity.
Qed.

(** C1, the code at a failing input: for every nonce the signer can draw,
    [scenario1_reused_k] raises NameError, at the import of
    sm2_optimized.py, and returns no pair at all. *)
Theorem scenario1_reused_k_raises (sm3_hash : bytes -> bytes)
    (d : Z) (M1 M2 Z1 Z2 : bytes) (k : Z) :
  2 <= k <= n - 2 ->
  Misuse.scenario1_reused_k sm3_hash d M1 M2 Z1 Z2 k = Raise NameError.
Proof.
  intros _. apply misuse_imported_raises.
Qed.

Lemma scenario1_reused_k_raises_witness :
  Misuse.scenario1_reused_k (Demo.constant_hash 1) Demo.d [x31] [x32] [] [] Demo.k
  = Raise NameError.
Proof.
  apply (scenario1_reused_k_raises (Demo.constant_hash 1) Demo.d [x31] [x32] [] [] Demo.k).
  split; discriminate.
Defined.

(** ** The machine-word arithmetic computes what sm2_base.py computes *)

Lemma big_extended_gcd_calls_spec (depth : nat) :
  forall a b,
    match Big.extended_gcd_calls depth a b with
    | Some (g, x, y) => Some (BigZ.to_Z g, BigZ.to_Z x, BigZ.to_Z y)
    | None => None
    end = Base.extended_gcd_calls depth (BigZ.to_Z a) (BigZ.to_Z b).
Proof.
  induction depth as [|d IH]; intros a b; [reflexivity|].
  cbn [Big.extended_gcd_calls Base.extended_gcd_calls].
  rewrite BigZ.spec_eqb. change (BigZ.to_Z 0%bigZ) with 0.
  destruct (BigZ.to_Z a =? 0); [reflexivity|].
  pose proof (BigZ.spec_div_eucl b a) as Hd.
  unfold Z.modulo, Z.div.
  destruct (BigZ.div_eucl b a) as [q r].
  destruct (Z.div_eucl (BigZ.to_Z b) (BigZ.to_Z a)) as [qz rz].
  injection Hd as <- <-.
  rewrite <- IH.
  destruct (Big.extended_gcd_calls d r a) as [[[g y] x]|]; [|reflexivity].
  rewrite BigZ.spec_sub, BigZ.spec_mul. reflexivity.
Qed.

Lemma big_mod_inverse_spec (a m : bigZ) :
  match Big.mod_inverse a m with Ok i => Ok (BigZ.to_Z i) | Raise e => Raise e end
  = Base.mod_inverse (BigZ.to_Z a) (BigZ.to_Z m).
Proof.
  unfold Big.mod_inverse, Base.mod_inverse, Base.extended_gcd.
  rewrite <- big_extended_gcd_calls_spec.
  destruct (Big.extended_gcd_calls _ a m) as [[[g x] y]|]; [|reflexivity].
  cbn [bind].
  rewrite BigZ.spec_eqb. change (BigZ.to_Z 1%bigZ) with 1.
  destruct (BigZ.to_Z g =? 1); [|reflexivity].
  cbn [negb]. rewrite BigZ.spec_modulo. reflexivity.
Qed.

Lemma big_p : BigZ.to_Z Big.p = Base.p.
Proof. vm_compute. reflexivity. Qed.

Lemma big_a : BigZ.to_Z Big.a = Base.a.
Proof. vm_compute. reflexivity. Qed.

Ltac big_to_Z :=
  repeat first [ rewrite BigZ.spec_modulo | rewrite BigZ.spec_sub
               | rewrite BigZ.spec_add | rewrite BigZ.spec_mul
               | rewrite big_p | rewrite big_a ].

Lemma big_point_add_spec (p1 p2 : Big.BPoint) :
  Big.to_outcome (Big.point_add p1 p2)
  = Base.point_add (Big.to_point p1) (Big.to_point p2).
Proof.
  destruct p1 as [[x1 y1]|], p2 as [[x2 y2]|]; try reflexivity.
  unfold Big.point_add, Base.point_add, Big.to_point, point_eqb.
  rewrite !BigZ.spec_eqb. big_to_Z. change (BigZ.to_Z 0%bigZ) with 0.
  destruct ((BigZ.to_Z x1 =? BigZ.to_Z x2)
            && ((BigZ.to_Z y1 + BigZ.to_Z y2) mod Base.p =? 0)); [reflexivity|].
  destruct (negb ((BigZ.to_Z x1 =? BigZ.to_Z x2) && (BigZ.to_Z y1 =? BigZ.to_Z y2)));
    cbv zeta.
  - pose proof (big_mod_inverse_spec (BigZ.modulo (BigZ.sub x2 x1) Big.p) Big.p) as Hi.
    revert Hi. big_to_Z. intros <-.
    destruct (Big.mod_inverse _ Big.p) as [i|]; [|reflexivity].
    cbn [bind Big.to_outcome Big.to_point]. big_to_Z. reflexivity.
  - pose proof (big_mod_inverse_spec (BigZ.modulo (BigZ.mul 2 y1) Big.p) Big.p) as Hi.
    revert Hi. big_to_Z. change (BigZ.to_Z 2%bigZ) with 2. intros <-.
    destruct (Big.mod_inverse _ Big.p) as [i|]; [|reflexivity].
    cbn [bind Big.to_outcome Big.to_point]. big_to_Z.
    change (BigZ.to_Z 3%bigZ) with 3. reflexivity.
Qed.

Lemma big_point_multiply_loop_spec (iterations : nat) :
  forall k result current,
    Big.to_outcome (Big.point_multiply_loop iterations k result current)
    = Base.point_multiply_loop iterations k (Big.to_point result) (Big.to_point current).
Proof.
  induction iterations as [|it IH]; intros k res cur; [reflexivity|].
  cbn [Big.point_multiply_loop Base.point_multiply_loop].
  destruct (k >? 0); [|reflexivity].
  destruct (k mod 2 =? 1).
  - rewrite <- big_point_add_spec.
    destruct (Big.point_add res cur) as [res'|]; [|reflexivity].
    cbn [bind Big.to_outcome]. rewrite <- big_point_add_spec.
    destruct (Big.point_add cur cur) as [cur'|]; [|reflexivity].
    cbn [bind Big.to_outcome]. apply IH.
  - cbn [bind]. rewrite <- big_point_add_spec.
    destruct (Big.point_add cur cur) as [cur'|]; [|reflexivity].
    cbn [bind Big.to_outcome]. apply IH.
Qed.

Lemma big_point_multiply_spec (q : Big.BPoint) (k : Z) :
  Base.point_multiply (Big.to_point q) k = Big.to_outcome (Big.point_multiply q k).
Proof.
  unfold Base.point_multiply, Big.point_multiply.
  symmetry. apply (big_point_multiply_loop_spec _ k None q).
Qed.

Lemma big_verify_spec (sm3_hash : bytes -> bytes) (q : Big.BPoint)
    (message z : bytes) (r s : Z) :
  Base.verify sm3_hash (Big.to_point q) message z r s
  = Big.verify sm3_hash q message z r s.
Proof.
  unfold Base.verify, Big.verify.
  destruct (negb _); [reflexivity|]. cbv zeta.
  destruct (_ =? 0); [reflexivity|].
  change (Some (Base.Gx, Base.Gy)) with (Big.to_point Big.G).
  rewrite !big_point_multiply_spec.
  destruct (Big.point_multiply Big.G s) as [sG|]; [|reflexivity].
  cbn [bind Big.to_outcome].
  destruct (Big.point_multiply q _) as [tP|]; [|reflexivity].
  cbn [bind Big.to_outcome].
  destruct (is_None (Big.to_point sG) || is_None (Big.to_point tP)); [reflexivity|].
  rewrite <- big_point_add_spec.
  destruct (Big.point_add sG tP) as [[[x1 y1]|]|]; reflexivity.
Qed.

(** ** Evaluations on the curve, with the arithmetic of sm2_base.py *)

Lemma base_signature_valid :
  Base.sign (Demo.constant_hash Demo.e) Demo.d [] [] [Demo.k] = Ok (Some (1, 1)) /\
  Base.verify (Demo.constant_hash Demo.e) Demo.P [] [] 1 1 = Ok true.
Proof.
  split; vm_compute; reflexivity.
Qed.

Lemma base_verify_malleated :
  Base.verify (Demo.constant_hash Demo.e) Demo.P [] [] 1 (n - 2) = Ok false.
Proof.
  change Demo.P with (Big.to_point Big.P). rewrite big_verify_spec.
  vm_cast_no_check (@eq_refl (outcome bool) (Ok false)).
Qed.

Lemma base_multiply_u : Base.point_multiply (Some (Gx, Gy)) Forgery.u = Ok Demo.uG.
Proof.
  change (Some (Gx, Gy)) with (Big.to_point Big.G). rewrite big_point_multiply_spec.
  vm_cast_no_check (@eq_refl (outcome Point) (Ok Demo.uG)).
Qed.

Lemma base_multiply_v : Base.point_multiply Demo.P Forgery.v = Ok Demo.vP.
Proof.
  change Demo.P with (Big.to_point Big.P). rewrite big_point_multiply_spec.
  vm_cast_no_check (@eq_refl (outcome Point) (Ok Demo.vP)).
Qed.

Lemma base_verify_forged :
  Base.verify (Demo.constant_hash 0) Demo.P [] [] Demo.forged_r Demo.forged_s = Ok false.
Proof.
  change Demo.P with (Big.to_point Big.P). rewrite big_verify_spec.
  vm_cast_no_check (@eq_refl (outcome bool) (Ok false)).
Qed.

Lemma base_sign_digest_only (sm3_hash sm3_hash' : bytes -> bytes)
    (d : Z) (message z message' z' : bytes) (draws : list Z) :
  from_bytes (sm3_hash (z ++ message)) = from_bytes (sm3_hash' (z' ++ message')) ->
  Base.sign sm3_hash d message z draws = Base.sign sm3_hash' d message' z' draws.
Proof.
  intros H. unfold Base.sign. cbv zeta. rewrite H. reflexivity.
Qed.

Lemma constant_hash_digest (v : Z) (data : bytes) :
  0 <= v < 2 ^ 256 -> from_bytes (Demo.constant_hash v data) = v.
Proof.
  intros H. unfold Demo.constant_hash. apply from_bytes_big_endian.
  change (256 ^ Z.of_nat 32) with (2 ^ 256). assumption.
Qed.

Lemma demo_e_range : 0 <= Demo.e < 2 ^ 256.
Proof. vm_compute. split; [discriminate|reflexivity]. Qed.

(** ** Sign, then verify *)

(** C4, the code at a failing input: the key pair [(2, 2*G)], the nonce 5
    and a message whose digest makes the signature [(1, 1)].  The base
    signer returns this signature and the base verifier accepts it; the
    optimized verifier raises NameError, at the import of sm2_optimized.py,
    and returns nothing. *)
Theorem base_signature_breaks_optimized_verify (sm3_hash : bytes -> bytes)
    (message z : bytes) :
  from_bytes (sm3_hash (z ++ message)) = Demo.e ->
  Base.point_multiply (Some (Gx, Gy)) Demo.d = Ok Demo.P /\
  Base.sign sm3_hash Demo.d message z [Demo.k] = Ok (Some (1, 1)) /\
  Base.verify sm3_hash Demo.P message z 1 1 = Ok true /\
  Optimized.verify sm3_hash Demo.P message z 1 1 = Raise NameError.
Proof.
  intros He.
  assert (He' : from_bytes (sm3_hash (z ++ message))
                = from_bytes (Demo.constant_hash Demo.e ([] ++ []))).
  { rewrite He. symmetry. apply constant_hash_digest, demo_e_range. }
  split; [exact demo_public_key|]. split; [|split].
  - rewrite (base_sign_digest_only sm3_hash (Demo.constant_hash Demo.e)
               Demo.d message z [] [] [Demo.k] He').
    exact (proj1 base_signature_valid).
  - rewrite (base_verify_digest_only sm3_hash (Demo.constant_hash Demo.e)
               Demo.P message z [] [] 1 1 He').
    exact (proj2 base_signature_valid).
  - apply optimized_verify_unavailable.
Qed.

Lemma base_signature_breaks_optimized_verify_witness :
  Base.point_multiply (Some (Gx, Gy)) Demo.d = Ok Demo.P /\
  Base.sign (Demo.constant_hash Demo.e) Demo.d [x6d; x73; x67] (repeat x00 32) [Demo.k]
    = Ok (Some (1, 1)) /\
  Base.verify (Demo.constant_hash Demo.e) Demo.P [x6d; x73; x67] (repeat x00 32) 1 1
    = Ok true /\
  Optimized.verify (Demo.constant_hash Demo.e) Demo.P [x6d; x73; x67] (repeat x00 32) 1 1
    = Raise NameError.
Proof.
  apply (base_signature_breaks_optimized_verify
           (Demo.constant_hash Demo.e) [x6d; x73; x67] (repeat x00 32)).
  vm_compute. reflexivity.
Defined.

(** ** Scenario 4: the mutated signature *)

(** The mutated [s] differs from [s] unless [2s + r] is a multiple of [n]. *)
Lemma malleated_s_differs (r s : Z) :
  (2 * s + r) mod n <> 0 -> (- s - r) mod n <> s.
Proof.
  intros H E. apply H.
  assert (E' : (- s - r) mod n = s mod n).
  { rewrite <- E at 2. rewrite Z.mod_mod by discriminate. reflexivity. }
  apply Z.cong_iff_ex in E'. destruct E' as [q Hq].
  rewrite <- (Z.mod_0_l n) by discriminate.
  apply Z.cong_iff_ex. exists (- q). lia.
Qed.

(** C2, the code at a failing input: [(r, s) = (1, 1)] is a signature of the
    key [2*G] that the base verifier accepts.  The mutated pair
    [(1, n - 2)] is rejected by the base verifier, and
    [scenario4_malleable_signature], which calls the optimized verifier,
    raises NameError, at the import of sm2_optimized.py: it returns
    [((r, s'), True)] with neither. *)
Theorem malleated_signature_rejected (sm3_hash : bytes -> bytes) (message z : bytes) :
  from_bytes (sm3_hash (z ++ message)) = Demo.e ->
  Base.verify sm3_hash Demo.P message z 1 1 = Ok true /\
  Misuse.scenario4_with (Base.verify sm3_hash) Demo.P message z 1 1
    = Ok ((1, n - 2), false) /\
  Misuse.scenario4_malleable_signature sm3_hash Demo.P message z 1 1 = Raise NameError.
Proof.
  intros He.
  assert (He' : from_bytes (sm3_hash (z ++ message))
                = from_bytes (Demo.constant_hash Demo.e ([] ++ []))).
  { rewrite He. symmetry. apply constant_hash_digest, demo_e_range. }
  split; [|split].
  - rewrite (base_verify_digest_only sm3_hash (Demo.constant_hash Demo.e)
               Demo.P message z [] [] 1 1 He').
    exact (proj2 base_signature_valid).
  - unfold Misuse.scenario4_with.
    replace ((Z.opp 1 - 1) mod n) with (n - 2) by reflexivity.
    rewrite (base_verify_digest_only sm3_hash (Demo.constant_hash Demo.e)
               Demo.P message z [] [] 1 (n - 2) He').
    rewrite base_verify_malleated. reflexivity.
  - apply misuse_imported_raises.
Qed.

Lemma malleated_signature_rejected_witness :
  Base.verify (Demo.constant_hash Demo.e) Demo.P [x6d; x73; x67] (repeat x00 32) 1 1
    = Ok true /\
  Misuse.scenario4_with (Base.verify (Demo.constant_hash Demo.e))
    Demo.P [x6d; x73; x67] (repeat x00 32) 1 1 = Ok ((1, n - 2), false) /\
  Misuse.scenario4_malleable_signature (Demo.constant_hash Demo.e)
    Demo.P [x6d; x73; x67] (repeat x00 32) 1 1 = Raise NameError.
Proof.
  apply (malleated_signature_rejected
           (Demo.constant_hash Demo.e) [x6d; x73; x67] (repeat x00 32)).
  vm_compute. reflexivity.
Defined.

(** The scenario never reports a valid pair. *)
Lemma scenario4_never_valid (sm3_hash : bytes -> bytes)
    (P : Point) (M z : bytes) (r s : Z) (pair : Z * Z) :
  Misuse.scenario4_malleable_signature sm3_hash P M z r s <> Ok (pair, true).
Proof.
  unfold Misuse.scenario4_malleable_signature.
  rewrite misuse_imported_raises. discriminate.
Qed.

(** ** The forgery *)

(** C5, the code at a failing input: [forge_satoshi_signature] returns no
    triple at all, for any message and any public key: satoshi_forgery.py
    is rejected by the compiler, for the literal of line 116, and the call
    raises SyntaxError. *)
Theorem forge_satoshi_signature_raises (sm3_hash : bytes -> bytes)
    (message : bytes) (satoshi_pubkey : Point) :
  Forgery.forge_satoshi_signature sm3_hash message satoshi_pubkey = Raise SyntaxError.
Proof.
  apply forgery_imported_raises.
Qed.


(** And [verify_forgery] answers [True] on nothing. *)
Lemma verify_forgery_never_true (sm3_hash : bytes -> bytes)
    (message z : bytes) (r s : Z) (pubkey : Point) :
  Forgery.verify_forgery sm3_hash message z r s pubkey <> Ok true.
Proof.
  unfold Forgery.verify_forgery. rewrite forgery_imported_raises. discriminate.
Qed.

(** From the x-coordinate on, the forger computes [r = x1 mod n],
    [e = (r - x1) mod n], which is 0, and [s = v^-1 * (u + r*v) mod n]. *)
Lemma forge_from_x1_values (sm3_hash : bytes -> bytes) (message : bytes) (x1 : Z) :
  exists inv_v,
    mod_inverse Forgery.v n = Ok inv_v /\
    (Forgery.v * inv_v) mod n = 1 /\
    Forgery.forge_from_x1 sm3_hash message x1
    = Ok (x1 mod n,
          (inv_v * (Forgery.u + (x1 mod n) * Forgery.v)) mod n,
          Forgery.find_z_for_hash_body sm3_hash (repeat x00 32) message).
Proof.
  destruct (mod_inverse Forgery.v n) as [inv_v|] eqn:E; [|vm_compute in E; discriminate].
  exists inv_v. split; [reflexivity|]. split.
  - vm_compute in E. injection E as <-. vm_compute. reflexivity.
  - unfold Forgery.forge_from_x1. cbv zeta.
    replace ((x1 mod n - x1) mod n) with 0.
    + change (to_bytes 0 32) with (Ok (repeat x00 32)). cbn [bind].
      rewrite E. reflexivity.
    + symmetry. rewrite <- (Z.mod_0_l n) by discriminate. Z.mod_equality.
Qed.

(** The forgery run on the arithmetic of sm2_base.py, for the key [2*G] and a
    hash for which the search for [Z] succeeds at the first candidate: the
    forged triple is returned, and the base verifier rejects it. *)
Lemma forgery_on_base_arithmetic (sm3_hash : bytes -> bytes) (message : bytes) :
  sm3_hash (Forgery.Z_candidate 0 ++ message) = repeat x00 32 ->
  Forgery.forge_with sm3_hash Base.point_multiply Base.point_add message Demo.P
    = Ok (Demo.forged_r, Demo.forged_s, Forgery.Z_candidate 0) /\
  Base.verify sm3_hash Demo.P message (Forgery.Z_candidate 0)
    Demo.forged_r Demo.forged_s = Ok false.
Proof.
  intros H. split.
  - unfold Forgery.forge_with.
    rewrite base_multiply_u, base_multiply_v. cbn [bind].
    remember (Base.point_add Demo.uG Demo.vP) as q eqn:Eq.
    vm_compute in Eq. subst q. cbn [bind].
    match goal with
    | |- Forgery.forge_from_x1 _ _ ?x = _ =>
        destruct (forge_from_x1_values sm3_hash message x) as (inv_v & Ei & _ & ->)
    end.
    vm_compute in Ei. injection Ei as <-.
    assert (HZ : Forgery.find_z_for_hash_body sm3_hash (repeat x00 32) message
                 = Forgery.Z_candidate 0).
    { unfold Forgery.find_z_for_hash_body.
      replace (100 * 100)%nat with (S (100 * 100 - 1)) by reflexivity.
      cbn [Forgery.find_z_from]. rewrite H.
      change (bytes_eqb (repeat x00 32) (repeat x00 32)) with true.
      reflexivity. }
    rewrite HZ. vm_compute. reflexivity.
  - rewrite (base_verify_digest_only sm3_hash (Demo.constant_hash 0)
               Demo.P message (Forgery.Z_candidate 0) [] []
               Demo.forged_r Demo.forged_s).
    + exact base_verify_forged.
    + rewrite H. vm_compute. reflexivity.
Qed.

Lemma forgery_on_base_arithmetic_example :
  Forgery.forge_with (Demo.constant_hash 0) Base.point_multiply Base.point_add
    [x6d; x73; x67] Demo.P
    = Ok (Demo.forged_r, Demo.forged_s, Forgery.Z_candidate 0) /\
  Base.verify (Demo.constant_hash 0) Demo.P [x6d; x73; x67] (Forgery.Z_candidate 0)
    Demo.forged_r Demo.forged_s = Ok false.
Proof.
  apply (forgery_on_base_arithmetic (Demo.constant_hash 0) [x6d; x73; x67]).
  vm_compute. reflexivity.
Defined.

(** The demonstration key of the source is not on the curve, and its
    coordinates are longer than 32 bytes. *)
Lemma satoshi_key_off_curve :
  let '(x, y) := Forgery.SATOSHI_PUBLIC_KEY in
  (y * y) mod p <> (x * x * x + a * x + b) mod p /\ 2 ^ 256 <= x /\ 2 ^ 256 <= y.
Proof.
  vm_compute. repeat split; discriminate.
Qed.

(** ** Further properties of sm2_base.py *)

(** X1. [mod_inverse(a, m)] for [0 <= a < 2^256] prime to [m > 0] returns
    the inverse of [a] modulo [m], the one in [0, m): arguments of that size
    stay within the recursion limit. *)
Theorem mod_inverse_returns_inverse (a m : Z) :
  0 <= a < 2 ^ 256 -> 0 < m -> Z.gcd a m = 1 ->
  exists i, mod_inverse a m = Ok i /\ 0 <= i < m /\ (a * i) mod m = 1 mod m.
Proof.
  apply mod_inverse_coprime.
Qed.

Lemma mod_inverse_returns_inverse_witness :
  exists i, mod_inverse 3 7 = Ok i /\ 0 <= i < 7 /\ (3 * i) mod 7 = 1 mod 7.
Proof.
  apply (mod_inverse_returns_inverse 3 7); [lia|lia|reflexivity].
Defined.

(** X2. [mod_inverse(a, m)] raises ValueError when [0 <= a < 2^256] and
    [m > 0] have a common divisor; in particular for [a = 0] and [m > 1]. *)
Theorem mod_inverse_raises (a m : Z) :
  0 <= a < 2 ^ 256 -> 0 < m -> Z.gcd a m <> 1 -> mod_inverse a m = Raise ValueError.
Proof.
  apply mod_inverse_not_coprime.
Qed.

Lemma mod_inverse_raises_witness : mod_inverse 0 p = Raise ValueError.
Proof.
  apply (mod_inverse_raises 0 p); [lia|reflexivity|].
  vm_compute. discriminate.
Defined.

(** X30. On two consecutive Fibonacci numbers from [F 1000] on,
    [mod_inverse] raises RecursionError, and neither the inverse, which
    exists, nor ValueError: the recursion of [extended_gcd] is deeper than
    the interpreter accepts. *)
Theorem mod_inverse_deep_recursion (k : nat) :
  (1000 <= k)%nat ->
  Z.gcd (fibonacci k) (fibonacci (S k)) = 1 /\
  mod_inverse (fibonacci k) (fibonacci (S k)) = Raise RecursionError.
Proof.
  intros Hk. split; [apply fibonacci_coprime|].
  unfold mod_inverse, extended_gcd.
  rewrite (extended_gcd_calls_fibonacci k); [reflexivity| |].
  - apply Nat.le_trans with (m := 1000%nat); [|exact Hk].
    apply Nat.leb_le. reflexivity.
  - apply Nat.lt_le_trans with (m := 1000%nat); [|exact Hk].
    apply Nat.ltb_lt. reflexivity.
Qed.

Lemma mod_inverse_deep_recursion_witness :
  Z.gcd (fibonacci 1000) (fibonacci 1001) = 1 /\
  mod_inverse (fibonacci 1000) (fibonacci 1001) = Raise RecursionError.
Proof.
  apply (mod_inverse_deep_recursion 1000). apply Nat.le_refl.
Defined.

(** *** The curve *)

Section Congruence.

Variable m : Z.

#[local] Instance cong_equivalence : Equivalence (cong m).
Proof. unfold cong. split; congruence. Qed.

#[local] Instance cong_add : Proper (cong m ==> cong m ==> cong m) Z.add.
Proof.
  unfold cong. intros u u' Hu v v' Hv.
  rewrite (Zplus_mod u v), (Zplus_mod u' v'), Hu, Hv. reflexivity.
Qed.

#[local] Instance cong_sub : Proper (cong m ==> cong m ==> cong m) Z.sub.
Proof.
  unfold cong. intros u u' Hu v v' Hv.
  rewrite (Zminus_mod u v), (Zminus_mod u' v'), Hu, Hv. reflexivity.
Qed.

#[local] Instance cong_mul : Proper (cong m ==> cong m ==> cong m) Z.mul.
Proof.
  unfold cong. intros u u' Hu v v' Hv.
  rewrite (Zmult_mod u v), (Zmult_mod u' v'), Hu, Hv. reflexivity.
Qed.

Lemma cong_mod (u : Z) : cong m (u mod m) u.
Proof. unfold cong. apply Zmod_mod. Qed.

Lemma cong_ring (u v : Z) : u = v -> cong m u v.
Proof. intros ->. reflexivity. Qed.

Variables a b : Z.

(** The third point of a chord through two points of the curve is on the
    curve: the cubic minus the squared line vanishes at both ends, and its
    linear remainder after division by [(x - x1)(x - x2)(x - x3)] is then zero
    because [x2 - x1] is invertible. *)
Lemma chord_on_curve (x1 y1 x2 y2 i : Z) :
  on_curve_at m a b x1 y1 -> on_curve_at m a b x2 y2 ->
  cong m (((x2 - x1) mod m) * i) 1 ->
  let k := (((y2 - y1) mod m) * i) mod m in
  let x3 := (k * k - x1 - x2) mod m in
  let y3 := (k * (x1 - x3) - y1) mod m in
  on_curve_at m a b x3 y3.
Proof.
  intros C1 C2 Hi k x3 y3. unfold on_curve_at in *.
  assert (Hk : cong m k ((y2 - y1) * i)).
  { unfold k. rewrite !cong_mod. reflexivity. }
  rewrite cong_mod in Hi.
  assert (K1 : cong m (k * (x2 - x1)) (y2 - y1)).
  { rewrite Hk.
    rewrite (cong_ring ((y2 - y1) * i * (x2 - x1)) ((y2 - y1) * ((x2 - x1) * i)))
      by ring.
    rewrite Hi. apply cong_ring. ring. }
  set (X3 := k * k - x1 - x2).
  set (alpha := a + 2 * k * k * x1 - 2 * k * y1 - (x1 * x2 + x1 * X3 + x2 * X3)).
  set (beta := b - k * k * x1 * x1 + 2 * k * y1 * x1 - y1 * y1 + x1 * x2 * X3).
  assert (G1 : cong m (alpha * x1 + beta) 0).
  { rewrite (cong_ring (alpha * x1 + beta) (x1 * x1 * x1 + a * x1 + b - y1 * y1))
      by (unfold alpha, beta, X3; ring).
    rewrite C1. apply cong_ring. ring. }
  assert (G2 : cong m (alpha * x2 + beta) 0).
  { rewrite (cong_ring (alpha * x2 + beta)
               (x2 * x2 * x2 + a * x2 + b
                - (k * (x2 - x1) + y1) * (k * (x2 - x1) + y1)))
      by (unfold alpha, beta, X3; ring).
    rewrite K1.
    rewrite (cong_ring ((y2 - y1 + y1) * (y2 - y1 + y1)) (y2 * y2)) by ring.
    rewrite C2. apply cong_ring. ring. }
  assert (A0 : cong m alpha 0).
  { rewrite (cong_ring alpha (alpha * 1)) by ring. rewrite <- Hi.
    rewrite (cong_ring (alpha * ((x2 - x1) * i))
               (((alpha * x2 + beta) - (alpha * x1 + beta)) * i)) by ring.
    rewrite G1, G2. apply cong_ring. ring. }
  assert (B0 : cong m beta 0).
  { rewrite (cong_ring beta ((alpha * x1 + beta) - alpha * x1)) by ring.
    rewrite G1, A0. apply cong_ring. ring. }
  unfold y3, x3. rewrite !cong_mod. fold X3.
  rewrite (cong_ring ((k * (x1 - X3) - y1) * (k * (x1 - X3) - y1))
             (X3 * X3 * X3 + a * X3 + b - (alpha * X3 + beta)))
    by (unfold alpha, beta, X3; ring).
  rewrite A0, B0. apply cong_ring. ring.
Qed.

(** The same for the tangent at a point of the curve. *)
Lemma tangent_on_curve (x1 y1 i : Z) :
  on_curve_at m a b x1 y1 ->
  cong m (((2 * y1) mod m) * i) 1 ->
  let k := (((3 * x1 * x1 + a) mod m) * i) mod m in
  let x3 := (k * k - x1 - x1) mod m in
  let y3 := (k * (x1 - x3) - y1) mod m in
  on_curve_at m a b x3 y3.
Proof.
  intros C1 Hi k x3 y3. unfold on_curve_at in *.
  assert (Hk : cong m k ((3 * x1 * x1 + a) * i)).
  { unfold k. rewrite !cong_mod. reflexivity. }
  rewrite cong_mod in Hi.
  assert (K1 : cong m (k * (2 * y1)) (3 * x1 * x1 + a)).
  { rewrite Hk.
    rewrite (cong_ring ((3 * x1 * x1 + a) * i * (2 * y1))
               ((3 * x1 * x1 + a) * (2 * y1 * i))) by ring.
    rewrite Hi. apply cong_ring. ring. }
  set (X3 := k * k - x1 - x1).
  unfold y3, x3. rewrite !cong_mod. fold X3.
  rewrite (cong_ring ((k * (x1 - X3) - y1) * (k * (x1 - X3) - y1))
             (X3 * X3 * X3 + a * X3 + b
              - (x1 * x1 * x1 + a * x1 + b - y1 * y1)
              - (3 * x1 * x1 + a - k * (2 * y1)) * (X3 - x1)))
    by (unfold X3; ring).
  rewrite K1, C1. apply cong_ring. ring.
Qed.

(** The pair that scenario 2 forges, against the signature the signer would
    make on the new digest with the same nonce. *)
Lemma fixed_nonce_offset (d k r r' inv_1d : Z) :
  cong m ((1 + d) * inv_1d) 1 ->
  cong m (((inv_1d * (k - r * d)) mod m + (r' - r) * inv_1d) mod m)
         ((inv_1d * (k - r' * d)) mod m + (r' - r)).
Proof.
  intros H.
  rewrite (cong_mod ((inv_1d * (k - r * d)) mod m + (r' - r) * inv_1d)).
  rewrite !cong_mod.
  rewrite (cong_ring (inv_1d * (k - r * d) + (r' - r) * inv_1d)
             (inv_1d * (k - r' * d) + (r' - r) * ((1 + d) * inv_1d))) by ring.
  rewrite H. apply cong_ring. ring.
Qed.

(** The scalars of the verifier, [s] for [G] and [t] for the key [d*G], add
    up to the nonce. *)
Lemma signature_scalars (d k r inv_1d : Z) :
  cong m ((1 + d) * inv_1d) 1 ->
  let s := (inv_1d * (k - r * d)) mod m in
  cong m (s + ((r + s) mod m) * d) k.
Proof.
  intros H s. unfold s.
  rewrite (cong_mod (r + (inv_1d * (k - r * d)) mod m)).
  rewrite !cong_mod.
  rewrite (cong_ring (inv_1d * (k - r * d) + (r + inv_1d * (k - r * d)) * d)
             ((k - r * d) * ((1 + d) * inv_1d) + r * d)) by ring.
  rewrite H. apply cong_ring. ring.
Qed.

End Congruence.

Lemma on_curve_some (x y : Z) :
  on_curve (Some (x, y)) = true <-> on_curve_at p a b x y.
Proof.
  unfold on_curve, on_curve_at, cong. cbv zeta. apply Z.eqb_eq.
Qed.

Lemma base_point_add_on_curve (p1 p2 q : Point) :
  on_curve p1 = true -> on_curve p2 = true ->
  Base.point_add p1 p2 = Ok q -> on_curve q = true.
Proof.
  destruct p1 as [[x1 y1]|], p2 as [[x2 y2]|]; cbn [Base.point_add];
    try (intros H1 H2 E; injection E as <-; assumption).
  intros H1 H2. apply on_curve_some in H1, H2.
  destruct ((x1 =? x2) && ((y1 + y2) mod p =? 0)).
  { intros E. injection E as <-. reflexivity. }
  destruct (point_eqb_spec (Some (x1, y1)) (Some (x2, y2))) as [E|_]; cbn [negb].
  - injection E as <- <-. cbv zeta.
    destruct (mod_inverse ((2 * y1) mod p) p) as [i|] eqn:Ei; [|discriminate].
    apply mod_inverse_ok in Ei; [|apply Z.mod_pos_bound; exact p_pos|exact p_pos].
    cbn [bind]. intros E. injection E as <-.
    apply on_curve_some.
    apply (tangent_on_curve p a b x1 y1 i H1).
    unfold cong. rewrite (proj2 Ei). reflexivity.
  - cbv zeta.
    destruct (mod_inverse ((x2 - x1) mod p) p) as [i|] eqn:Ei; [|discriminate].
    apply mod_inverse_ok in Ei; [|apply Z.mod_pos_bound; exact p_pos|exact p_pos].
    cbn [bind]. intros E. injection E as <-.
    apply on_curve_some.
    apply (chord_on_curve p a b x1 y1 x2 y2 i H1 H2).
    unfold cong. rewrite (proj2 Ei). reflexivity.
Qed.

(** X3. [point_add] keeps the curve: when both arguments are the identity
    or satisfy [y^2 = x^3 + a*x + b] modulo [p] and the call returns, the
    result is the identity or satisfies the equation. *)
Theorem point_add_on_curve (p1 p2 q : Point) :
  on_curve p1 = true -> on_curve p2 = true ->
  Base.point_add p1 p2 = Ok q -> on_curve q = true.
Proof.
  apply base_point_add_on_curve.
Qed.

Lemma generator_on_curve : on_curve (Some (Gx, Gy)) = true.
Proof. vm_compute. reflexivity. Qed.

Lemma demo_double : Base.point_add (Some (Gx, Gy)) (Some (Gx, Gy)) = Ok Demo.P.
Proof. vm_compute. reflexivity. Qed.

Lemma point_add_on_curve_witness : on_curve Demo.P = true.
Proof.
  apply (point_add_on_curve (Some (Gx, Gy)) (Some (Gx, Gy)) Demo.P).
  - vm_compute. reflexivity.
  - vm_compute. reflexivity.
  - vm_compute. reflexivity.
Defined.

(** X4. The sum of two affine points, when it is an affine point, has both
    coordinates in [0, p). *)
Theorem point_add_reduced (x1 y1 x2 y2 x3 y3 : Z) :
  Base.point_add (Some (x1, y1)) (Some (x2, y2)) = Ok (Some (x3, y3)) ->
  0 <= x3 < p /\ 0 <= y3 < p.
Proof.
  cbn [Base.point_add].
  destruct ((x1 =? x2) && ((y1 + y2) mod p =? 0)); [discriminate|].
  match goal with |- bind ?c _ = _ -> _ => destruct c as [k|]; [|discriminate] end.
  cbn [bind]. cbv zeta. intros E. injection E as <- <-.
  split; apply Z.mod_pos_bound; exact p_pos.
Qed.

Lemma point_add_reduced_witness :
  match Demo.P with
  | Some (x3, y3) => 0 <= x3 < p /\ 0 <= y3 < p
  | None => True
  end.
Proof.
  apply (point_add_reduced Gx Gy Gx Gy). vm_compute. reflexivity.
Defined.

Lemma base_point_multiply_loop_on_curve (iterations : nat) :
  forall k result current q,
    on_curve result = true -> on_curve current = true ->
    Base.point_multiply_loop iterations k result current = Ok q ->
    on_curve q = true.
Proof.
  induction iterations as [|it IH]; intros k res cur q Hr Hc; cbn [Base.point_multiply_loop].
  - intros E. injection E as <-. assumption.
  - destruct (k >? 0); [|intros E; injection E as <-; assumption].
    destruct (k mod 2 =? 1).
    + destruct (Base.point_add res cur) as [res'|] eqn:E1; [|discriminate].
      cbn [bind].
      destruct (Base.point_add cur cur) as [cur'|] eqn:E2; [|discriminate].
      cbn [bind]. apply IH.
      * exact (base_point_add_on_curve _ _ _ Hr Hc E1).
      * exact (base_point_add_on_curve _ _ _ Hc Hc E2).
    + cbn [bind].
      destruct (Base.point_add cur cur) as [cur'|] eqn:E2; [|discriminate].
      cbn [bind]. apply IH; [assumption|].
      exact (base_point_add_on_curve _ _ _ Hc Hc E2).
Qed.

(** X5. [point_multiply] keeps the curve: a multiple of a point of the
    curve, when the call returns, is the identity or a point of the curve. *)
Theorem point_multiply_on_curve (q : Point) (k : Z) (r : Point) :
  on_curve q = true -> Base.point_multiply q k = Ok r -> on_curve r = true.
Proof.
  intros Hq. unfold Base.point_multiply.
  apply base_point_multiply_loop_on_curve; [reflexivity|assumption].
Qed.

Lemma point_multiply_on_curve_witness :
  on_curve (Some (Demo.x1,
                  34023782933972387894878477359310186019819218172080033126273551504796574001979))
  = true.
Proof.
  apply (point_multiply_on_curve (Some (Gx, Gy)) Demo.k).
  - vm_compute. reflexivity.
  - vm_compute. reflexivity.
Defined.

(** X6. The key pair returned by [generate_key_pair] for the draw [d] is
    [d] itself with [d*G], and the public key is the identity or a point
    of the curve. *)
Theorem generate_key_pair_on_curve (d d' : Z) (P : Point) :
  Base.generate_key_pair d = Ok (d', P) ->
  d' = d /\ Base.point_multiply (Some (Gx, Gy)) d = Ok P /\ on_curve P = true.
Proof.
  unfold Base.generate_key_pair.
  destruct (Base.point_multiply (Some (Gx, Gy)) d) as [Q|] eqn:E; [|discriminate].
  cbn [bind]. intros H. injection H as <- <-.
  split; [reflexivity|]. split; [reflexivity|].
  unfold Base.point_multiply in E.
  exact (base_point_multiply_loop_on_curve _ d None (Some (Gx, Gy)) Q
           eq_refl generator_on_curve E).
Qed.

Lemma generate_key_pair_on_curve_witness :
  Demo.d = Demo.d /\
  Base.point_multiply (Some (Gx, Gy)) Demo.d = Ok Demo.P /\ on_curve Demo.P = true.
Proof.
  apply (generate_key_pair_on_curve Demo.d Demo.d Demo.P).
  vm_compute. reflexivity.
Defined.

(** The generator is on the curve, [n*G] is the identity and [(n-1)*G] is
    the opposite of [G]. *)
Lemma generator_order :
  on_curve (Some (Gx, Gy)) = true /\
  Base.point_multiply (Some (Gx, Gy)) n = Ok None /\
  Base.point_multiply (Some (Gx, Gy)) (n - 1) = Ok (Some (Gx, p - Gy)).
Proof.
  split; [vm_compute; reflexivity|].
  change (Some (Gx, Gy)) with (Big.to_point Big.G).
  rewrite !big_point_multiply_spec. split.
  - vm_cast_no_check (@eq_refl (outcome Point) (Ok None)).
  - vm_cast_no_check (@eq_refl (outcome Point) (Ok (Some (Gx, p - Gy)))).
Qed.

(** X7. In sm2_base.py a point and its opposite add up to the identity,
    without a call of [mod_inverse]. *)
Theorem point_add_opposite (x y : Z) :
  Base.point_add (Some (x, y)) (Some (x, (- y) mod p)) = Ok None.
Proof.
  assert (H : (x =? x) && ((y + (- y) mod p) mod p =? 0) = true).
  { rewrite Z.eqb_refl. cbn [andb]. apply Z.eqb_eq.
    rewrite Z.add_mod_idemp_r by discriminate.
    replace (y + - y) with 0 by ring. reflexivity. }
  cbn [Base.point_add]. rewrite H. reflexivity.
Qed.

(** The body of [point_add] in sm2_optimized.py: on two different arguments
    it is the function of sm2_base.py, whatever the doubling; on two equal
    affine arguments it goes through [point_double] and raises TypeError,
    unless they are their own opposite. *)
Lemma optimized_point_add_body_distinct (double : Point -> outcome Point)
    (p1 p2 : Point) :
  p1 <> p2 -> Optimized.point_add_with double p1 p2 = Base.point_add p1 p2.
Proof.
  intros Hne. destruct p1 as [[x1 y1]|], p2 as [[x2 y2]|]; try reflexivity.
  cbn [Base.point_add Optimized.point_add_with].
  destruct ((x1 =? x2) && ((y1 + y2) mod p =? 0)); [reflexivity|].
  destruct (point_eqb_spec (Some (x1, y1)) (Some (x2, y2))) as [E|_]; [contradiction|].
  cbn [negb]. cbv zeta.
  destruct (mod_inverse ((x2 - x1) mod p) p); reflexivity.
Qed.

Lemma optimized_point_add_body_same (x y : Z) :
  Optimized.point_add_with Optimized.point_double_body (Some (x, y)) (Some (x, y))
  = if (y + y) mod p =? 0 then Ok None else Raise TypeError.
Proof.
  cbn [Optimized.point_add_with].
  rewrite Z.eqb_refl. cbn [andb].
  destruct ((y + y) mod p =? 0); [reflexivity|].
  destruct (point_eqb_spec (Some (x, y)) (Some (x, y))) as [_|E]; [reflexivity|].
  congruence.
Qed.

Lemma base_point_multiply_identity (iterations : nat) :
  forall k, Base.point_multiply_loop iterations k None None = Ok None.
Proof.
  induction iterations as [|it IH]; intros k; cbn [Base.point_multiply_loop];
    [reflexivity|].
  destruct (k >? 0); [|reflexivity].
  destruct (k mod 2 =? 1); cbn [Base.point_add bind]; apply IH.
Qed.

(** X9. The base [point_multiply] returns the identity for every scalar
    [k <= 0], whatever the point: a negative scalar does not give the
    opposite multiple. *)
Theorem point_multiply_nonpositive (q : Point) (k : Z) :
  k <= 0 -> Base.point_multiply q k = Ok None.
Proof.
  intros Hk. unfold Base.point_multiply.
  destruct (Z.to_nat (bit_length k)); cbn [Base.point_multiply_loop]; [reflexivity|].
  destruct (Z.gtb_spec k 0); [lia|reflexivity].
Qed.

Lemma point_multiply_nonpositive_witness :
  Base.point_multiply (Some (Gx, Gy)) (-3) = Ok None.
Proof.
  apply (point_multiply_nonpositive (Some (Gx, Gy)) (-3)). lia.
Defined.

(** X10. When they return, [point_multiply(P, 2)] is [point_add(P, P)] and
    [point_multiply(P, 3)] is [point_add(P, point_multiply(P, 2))]. *)
Theorem point_multiply_two_three (q r2 r3 : Point) :
  Base.point_multiply q 2 = Ok r2 -> Base.point_multiply q 3 = Ok r3 ->
  Base.point_add q q = Ok r2 /\ Base.point_add q r2 = Ok r3.
Proof.
  unfold Base.point_multiply.
  change (Z.to_nat (bit_length 2)) with 2%nat.
  change (Z.to_nat (bit_length 3)) with 2%nat.
  cbn [Base.point_multiply_loop].
  change (2 >? 0) with true. change (3 >? 0) with true.
  change (2 mod 2 =? 1) with false. change (3 mod 2 =? 1) with true.
  change (2 / 2) with 1. change (3 / 2) with 1.
  change (1 >? 0) with true. change (1 mod 2 =? 1) with true. cbn [bind].
  replace (Base.point_add None q) with (Ok q) by (destruct q; reflexivity).
  cbn [bind].
  destruct (Base.point_add q q) as [q2|]; [|discriminate]. cbn [bind].
  change (Base.point_add None q2) with (Ok q2). cbn [bind].
  destruct (Base.point_add q2 q2); [|discriminate]. cbn [bind].
  intros E2. injection E2 as <-.
  destruct (Base.point_add q q2) as [q3|]; [|discriminate]. cbn [bind].
  intros E3. split; [reflexivity|exact E3].
Qed.

Lemma point_multiply_two_three_witness :
  Base.point_add (Some (Gx, Gy)) (Some (Gx, Gy)) = Ok Demo.P /\
  Base.point_add (Some (Gx, Gy)) Demo.P = Base.point_multiply (Some (Gx, Gy)) 3.
Proof.
  destruct (Base.point_multiply (Some (Gx, Gy)) 3) as [r3|] eqn:E3;
    [|vm_compute in E3; discriminate].
  apply (point_multiply_two_three (Some (Gx, Gy)) Demo.P r3).
  - vm_compute. reflexivity.
  - exact E3.
Defined.

(** *** Signing and verifying *)

(** X11. The verifier of sm2_base.py answers [False], without raising, when
    [r] or [s] is outside [1, n-1], whatever the key, the message and the
    hash. *)
Theorem verify_out_of_range (sm3_hash : bytes -> bytes)
    (public_key : Point) (message z : bytes) (r s : Z) :
  ~ (1 <= r <= n - 1 /\ 1 <= s <= n - 1) ->
  Base.verify sm3_hash public_key message z r s = Ok false.
Proof.
  apply verify_rejects_out_of_range.
Qed.

Lemma verify_out_of_range_witness :
  Base.verify (Demo.constant_hash 0) Demo.P [] [] 0 n = Ok false.
Proof.
  apply (verify_out_of_range (Demo.constant_hash 0) Demo.P [] [] 0 n). lia.
Defined.

(** X12. The verifier of sm2_base.py answers [False], without raising, when
    [(r + s) mod n] is 0. *)
Theorem verify_zero_t (sm3_hash : bytes -> bytes)
    (public_key : Point) (message z : bytes) (r s : Z) :
  (r + s) mod n = 0 ->
  Base.verify sm3_hash public_key message z r s = Ok false.
Proof.
  apply verify_rejects_zero_t.
Qed.

Lemma verify_zero_t_witness :
  Base.verify (Demo.constant_hash 0) Demo.P [] [] 1 (n - 1) = Ok false.
Proof.
  apply (verify_zero_t (Demo.constant_hash 0) Demo.P [] [] 1 (n - 1)).
  vm_compute. reflexivity.
Defined.

(** X13. Under the identity as public key the base verifier accepts
    nothing. *)
Theorem verify_identity_key (sm3_hash : bytes -> bytes) (message z : bytes) (r s : Z) :
  Base.verify sm3_hash None message z r s <> Ok true.
Proof.
  unfold Base.verify.
  destruct (negb _); [discriminate|]. cbv zeta.
  destruct (_ =? 0); [discriminate|].
  destruct (Base.point_multiply (Some (Gx, Gy)) s) as [sG|]; [|discriminate].
  cbn [bind].
  change (Base.point_multiply None ((r + s) mod n))
    with (Base.point_multiply_loop (Z.to_nat (bit_length ((r + s) mod n)))
            ((r + s) mod n) None None).
  rewrite base_point_multiply_identity. cbn [bind is_None].
  rewrite orb_true_r. discriminate.
Qed.

Lemma base_sign_iteration_range (d e k r s : Z) :
  Base.sign_iteration d e k = Ok (Some (r, s)) ->
  1 <= r <= n - 1 /\ 1 <= s <= n - 1 /\ r + k <> n /\
  exists x1 y1 inv_1d,
    Base.point_multiply (Some (Gx, Gy)) k = Ok (Some (x1, y1)) /\
    mod_inverse (1 + d) n = Ok inv_1d /\
    r = (e + x1) mod n /\ s = (inv_1d * (k - r * d)) mod n.
Proof.
  unfold Base.sign_iteration.
  destruct (Base.point_multiply (Some (Gx, Gy)) k) as [[[x1 y1]|]|]; cbn [bind];
    try discriminate.
  cbv zeta.
  destruct (Z.eqb_spec ((e + x1) mod n) 0) as [|Hr]; [discriminate|].
  destruct (Z.eqb_spec ((e + x1) mod n + k) n) as [|Hrk]; [discriminate|].
  cbn [orb].
  destruct (mod_inverse (1 + d) n) as [inv_1d|]; [|discriminate]. cbn [bind].
  destruct (Z.eqb_spec ((inv_1d * (k - (e + x1) mod n * d)) mod n) 0) as [|Hs];
    [discriminate|].
  intros E. injection E as <- <-.
  pose proof (Z.mod_pos_bound (e + x1) n n_pos).
  pose proof (Z.mod_pos_bound (inv_1d * (k - (e + x1) mod n * d)) n n_pos).
  repeat split; try lia.
  exists x1, y1, inv_1d. repeat split.
Qed.

Lemma base_sign_loop_from_draw (d e : Z) (draws : list Z) (r s : Z) :
  Base.sign_loop d e draws = Ok (Some (r, s)) ->
  exists k, In k draws /\ Base.sign_iteration d e k = Ok (Some (r, s)).
Proof.
  induction draws as [|k draws IH]; cbn [Base.sign_loop]; [discriminate|].
  destruct (Base.sign_iteration d e k) as [[[r' s']|]|] eqn:E; cbn [bind];
    [| |discriminate].
  - intros H. injection H as <- <-. exists k. split; [left; reflexivity|exact E].
  - intros H. destruct (IH H) as (k' & Hin & Hk').
    exists k'. split; [right; assumption|assumption].
Qed.

(** X14. A signature returned by the base [sign] has [r] and [s] in
    [1, n-1]: it passes the range check of [verify]. *)
Theorem sign_in_range (sm3_hash : bytes -> bytes)
    (d : Z) (message z : bytes) (draws : list Z) (r s : Z) :
  Base.sign sm3_hash d message z draws = Ok (Some (r, s)) ->
  1 <= r <= n - 1 /\ 1 <= s <= n - 1.
Proof.
  unfold Base.sign. cbv zeta. intros H.
  destruct (base_sign_loop_from_draw _ _ _ _ _ H) as (k & _ & Hk).
  destruct (base_sign_iteration_range _ _ _ _ _ Hk) as (Hr & Hs & _).
  split; assumption.
Qed.

Lemma sign_in_range_witness : 1 <= 1 <= n - 1 /\ 1 <= 1 <= n - 1.
Proof.
  apply (sign_in_range (Demo.constant_hash Demo.e) Demo.d [] [] [Demo.k] 1 1).
  exact (proj1 base_signature_valid).
Defined.

(** X15. For a key [d >= -1] and nonces drawn in [2, n-2], a signature
    returned by the base [sign] has [(r + s) mod n <> 0]: it passes the [t]
    check of [verify] too.  This is what the test [r + k == n] of the
    signing loop is for. *)
Theorem sign_passes_t_check (sm3_hash : bytes -> bytes)
    (d : Z) (message z : bytes) (draws : list Z) (r s : Z) :
  0 <= 1 + d ->
  (forall k, In k draws -> 2 <= k <= n - 2) ->
  Base.sign sm3_hash d message z draws = Ok (Some (r, s)) ->
  (r + s) mod n <> 0.
Proof.
  intros Hd Hdraws. unfold Base.sign. cbv zeta. intros H.
  destruct (base_sign_loop_from_draw _ _ _ _ _ H) as (k & Hin & Hk).
  destruct (base_sign_iteration_range _ _ _ _ _ Hk)
    as (Hr & Hs & Hrk & x1 & y1 & inv_1d & _ & Hinv & _ & Es).
  apply mod_inverse_ok in Hinv; [|assumption|exact n_pos].
  destruct Hinv as [_ Hinv].
  specialize (Hdraws k Hin).
  intros Ht.
  assert (Hk0 : (r + k) mod n = 0).
  { rewrite <- (Z.mod_0_l n) by discriminate.
    rewrite <- (Z.mod_0_l n) in Ht by discriminate.
    apply Z.cong_iff_ex in Ht, Hinv. destruct Ht as [qt Hqt], Hinv as [qi Hqi].
    assert (Es' : s mod n = (inv_1d * (k - r * d)) mod n).
    { rewrite Es at 1. apply Z.mod_mod. discriminate. }
    apply Z.cong_iff_ex in Es'. destruct Es' as [qs Hqs].
    apply Z.cong_iff_ex.
    exists ((1 + d) * qt - qi * (k - r * d) - (1 + d) * qs).
    assert (E1 : (k - r * d) * ((1 + d) * inv_1d - 1) = (k - r * d) * (qi * n))
      by (rewrite Hqi; reflexivity).
    assert (E2 : (1 + d) * (s - inv_1d * (k - r * d)) = (1 + d) * (qs * n))
      by (rewrite Hqs; reflexivity).
    assert (Hs' : s = qt * n - r) by lia.
    clear Hqi Hqs Hqt Es. subst s.
    ring_simplify. ring_simplify in E1. ring_simplify in E2. lia. }
  apply Z.mod_divide in Hk0; [|discriminate].
  destruct Hk0 as [q Hq].
  assert (q = 1) by nia. lia.
Qed.

Lemma sign_passes_t_check_witness : (1 + 1) mod n <> 0.
Proof.
  apply (sign_passes_t_check (Demo.constant_hash Demo.e) Demo.d [] [] [Demo.k] 1 1).
  - vm_compute. discriminate.
  - intros k [<-|[]]. vm_compute. split; discriminate.
  - exact (proj1 base_signature_valid).
Defined.

(** X16. The optimized [sign] returns no signature, for any key, message
    and nonces: the import of sm2_optimized.py raises NameError. *)
Theorem optimized_sign_raises (sm3_hash : bytes -> bytes)
    (d : Z) (message z : bytes) (draws : list Z) :
  Optimized.sign sm3_hash d message z draws = Raise NameError.
Proof.
  apply optimized_imported_raises.
Qed.

(** *** The Z digest *)

(** X18. For an identity of 8192 bytes or more [calculate_z] of sm2_base.py
    raises OverflowError: its bit length does not fit the two bytes of
    ENTLA. *)
Theorem calculate_z_long_id_raises (sm3_hash : bytes -> bytes)
    (id : bytes) (public_key : Point) :
  (8 * 1024 <= List.length id)%nat ->
  Base.calculate_z sm3_hash id public_key = Raise OverflowError.
Proof.
  intros H. apply calculate_z_overflow. lia.
Qed.

Lemma calculate_z_long_id_raises_witness :
  Base.calculate_z (Demo.constant_hash 0) (repeat x00 (8 * 1024)) Demo.P
    = Raise OverflowError.
Proof.
  apply (calculate_z_long_id_raises (Demo.constant_hash 0) (repeat x00 (8 * 1024)) Demo.P).
  rewrite repeat_length. vm_compute. reflexivity.
Defined.

Lemma to_bytes_out_of_range (v : Z) (width : nat) :
  ~ (0 <= v < 256 ^ Z.of_nat width) -> to_bytes v width = Raise OverflowError.
Proof.
  intros H. unfold to_bytes.
  destruct (Z.ltb_spec v 0); [reflexivity|].
  destruct (Z.leb_spec (256 ^ Z.of_nat width) v); [reflexivity|]. lia.
Qed.

Lemma calculate_z_up_to_key (sm3_hash : bytes -> bytes) (id : bytes) (public_key : Point) :
  (List.length id < 8 * 1024)%nat ->
  Base.calculate_z sm3_hash id public_key
  = ('(Px, _) <- unpack public_key ;;
     Px_bytes <- to_bytes Px 32 ;;
     '(_, Py) <- unpack public_key ;;
     Py_bytes <- to_bytes Py 32 ;;
     Ok (sm3_hash
           (((((((Spec.fixed_width 2 (Z.of_nat (List.length id) * 8) ++ id)
                   ++ Spec.fixed_width 32 a) ++ Spec.fixed_width 32 b)
                 ++ Spec.fixed_width 32 Gx) ++ Spec.fixed_width 32 Gy)
               ++ Px_bytes) ++ Py_bytes))).
Proof.
  intros Hid.
  destruct constants_fit_32_bytes as (Ha & Hb & HGx & HGy).
  assert (He : to_bytes (Z.of_nat (List.length id) * 8) 2
               = Ok (Spec.fixed_width 2 (Z.of_nat (List.length id) * 8))).
  { apply to_bytes_in_range. change (256 ^ Z.of_nat 2) with 65536. lia. }
  unfold Base.calculate_z. cbv zeta.
  rewrite He, !(to_bytes_in_range _ 32) by assumption. reflexivity.
Qed.

(** X19. For an identity of fewer than 8192 bytes, [calculate_z] of
    sm2_base.py raises TypeError on the identity point, which has no
    coordinates to encode. *)
Theorem calculate_z_identity_key (sm3_hash : bytes -> bytes) (id : bytes) :
  (List.length id < 8 * 1024)%nat ->
  Base.calculate_z sm3_hash id None = Raise TypeError.
Proof.
  intros Hid. rewrite calculate_z_up_to_key by assumption. reflexivity.
Qed.

Lemma calculate_z_identity_key_witness :
  Base.calculate_z (Demo.constant_hash 0) [x41] None = Raise TypeError.
Proof.
  apply (calculate_z_identity_key (Demo.constant_hash 0) [x41]).
  simpl. lia.
Defined.

(** X20. For an identity of fewer than 8192 bytes, [calculate_z] of
    sm2_base.py raises OverflowError on a key with a coordinate outside
    [0, 2^256): the demonstration key of satoshi_forgery.py, of 33 bytes a
    coordinate, is one. *)
Theorem calculate_z_wide_coordinate (sm3_hash : bytes -> bytes) (id : bytes) (Px Py : Z) :
  (List.length id < 8 * 1024)%nat ->
  ~ (0 <= Px < 2 ^ 256 /\ 0 <= Py < 2 ^ 256) ->
  Base.calculate_z sm3_hash id (Some (Px, Py)) = Raise OverflowError.
Proof.
  intros Hid Hkey.
  change (2 ^ 256) with (256 ^ Z.of_nat 32) in Hkey.
  rewrite calculate_z_up_to_key by assumption. cbn [unpack bind].
  destruct (Z_le_gt_dec 0 Px) as [H0|H0];
    [destruct (Z_lt_ge_dec Px (256 ^ Z.of_nat 32)) as [H1|H1]|].
  - rewrite (to_bytes_in_range Px 32) by lia. cbn [bind].
    rewrite (to_bytes_out_of_range Py 32) by lia. reflexivity.
  - rewrite (to_bytes_out_of_range Px 32) by lia. reflexivity.
  - rewrite (to_bytes_out_of_range Px 32) by lia. reflexivity.
Qed.

Lemma calculate_z_wide_coordinate_witness :
  Base.calculate_z (Demo.constant_hash 0) [x41] (Some Forgery.SATOSHI_PUBLIC_KEY)
    = Raise OverflowError.
Proof.
  apply (calculate_z_wide_coordinate (Demo.constant_hash 0) [x41]
           (fst Forgery.SATOSHI_PUBLIC_KEY) (snd Forgery.SATOSHI_PUBLIC_KEY)).
  - simpl. lia.
  - intros [[_ H] _]. vm_compute in H. discriminate.
Defined.

(** *** satoshi_forgery.py *)

Lemma bytes_eqb_eq (x y : bytes) : bytes_eqb x y = true <-> x = y.
Proof.
  revert y. induction x as [|c x IH]; intros [|d y]; cbn [bytes_eqb];
    try (split; (discriminate || reflexivity)).
  rewrite andb_true_iff, IH. split.
  - intros [Hc ->]. apply Byte.byte_dec_bl in Hc. subst. reflexivity.
  - intros E. injection E as -> ->. split; [apply Byte.byte_dec_lb|]; reflexivity.
Qed.

Lemma find_z_from_spec (sm3_hash : bytes -> bytes) (target_hash message : bytes)
    (candidates : nat) :
  forall i,
    match Forgery.find_z_from sm3_hash candidates i target_hash message with
    | Some Z_ =>
        exists j, (i <= j < i + candidates)%nat /\ Z_ = Forgery.Z_candidate j /\
                  sm3_hash (Z_ ++ message) = target_hash /\
                  forall j0, (i <= j0 < j)%nat ->
                             sm3_hash (Forgery.Z_candidate j0 ++ message) <> target_hash
    | None =>
        forall j, (i <= j < i + candidates)%nat ->
                  sm3_hash (Forgery.Z_candidate j ++ message) <> target_hash
    end.
Proof.
  induction candidates as [|c IH]; intros i; cbn [Forgery.find_z_from].
  - intros j Hj. lia.
  - cbv zeta.
    destruct (bytes_eqb (sm3_hash (Forgery.Z_candidate i ++ message)) target_hash) eqn:E.
    + apply bytes_eqb_eq in E. exists i.
      split; [lia|]. split; [reflexivity|]. split; [assumption|].
      intros j0 Hj0. lia.
    + assert (Hi : sm3_hash (Forgery.Z_candidate i ++ message) <> target_hash).
      { intros H. apply bytes_eqb_eq in H. congruence. }
      specialize (IH (S i)).
      destruct (Forgery.find_z_from sm3_hash c (S i) target_hash message) as [Z_|].
      * destruct IH as (j & Hj & HZ & Hh & Hfirst).
        exists j. split; [lia|]. split; [assumption|]. split; [assumption|].
        intros j0 Hj0. destruct (Nat.eq_dec j0 i) as [->|]; [assumption|].
        apply Hfirst. lia.
      * intros j Hj. destruct (Nat.eq_dec j i) as [->|]; [assumption|].
        apply IH. lia.
Qed.

(** X21. The search of lines 60-79, the body of [find_z_for_hash], gives the
    first of the 10000 candidates [Z_candidate_0 .. Z_candidate_9999] whose
    digest with the message is the target; when there is none it gives
    [satoshi_forgery_special_Z], which then is no preimage found by the
    search. *)
Theorem find_z_for_hash_result (sm3_hash : bytes -> bytes) (target_hash message : bytes) :
  (exists j, (j < 100 * 100)%nat /\
             Forgery.find_z_for_hash_body sm3_hash target_hash message = Forgery.Z_candidate j /\
             sm3_hash (Forgery.Z_candidate j ++ message) = target_hash /\
             forall j0, (j0 < j)%nat ->
                        sm3_hash (Forgery.Z_candidate j0 ++ message) <> target_hash) \/
  (Forgery.find_z_for_hash_body sm3_hash target_hash message = Forgery.special_Z /\
   forall j, (j < 100 * 100)%nat ->
             sm3_hash (Forgery.Z_candidate j ++ message) <> target_hash).
Proof.
  unfold Forgery.find_z_for_hash_body.
  pose proof (find_z_from_spec sm3_hash target_hash message (100 * 100) 0) as H.
  destruct (Forgery.find_z_from sm3_hash (100 * 100) 0 target_hash message) as [Z_|].
  - left. destruct H as (j & Hj & -> & Hh & Hfirst).
    exists j. split; [lia|]. split; [reflexivity|]. split; [assumption|].
    intros j0 Hj0. apply Hfirst. lia.
  - right. split; [reflexivity|]. intros j Hj. apply H. lia.
Qed.

(** X22. From the x-coordinate [x1] on, the forger returns [r = x1 mod n]
    and [s = v^-1 * (u + r*v) mod n], and the digest it looks a preimage
    for, [(r - x1) mod n], is always the 32 zero bytes, whatever the message
    and the key. *)
Theorem forge_from_x1_result (sm3_hash : bytes -> bytes) (message : bytes) (x1 : Z) :
  exists inv_v,
    mod_inverse Forgery.v n = Ok inv_v /\
    (Forgery.v * inv_v) mod n = 1 /\
    Forgery.forge_from_x1 sm3_hash message x1
    = Ok (x1 mod n,
          (inv_v * (Forgery.u + (x1 mod n) * Forgery.v)) mod n,
          Forgery.find_z_for_hash_body sm3_hash (repeat x00 32) message).
Proof.
  apply forge_from_x1_values.
Qed.

(** *** sm2_optimized.py and sm2_misuse.py *)

(** X23. The optimized [point_multiply] returns no point, for any point and
    any scalar, the identity and the scalar 0 included: the import of
    sm2_optimized.py raises NameError before the function is defined. *)
Theorem optimized_point_multiply_outcome (q : Point) (k : Z) :
  Optimized.point_multiply q k = Raise NameError.
Proof.
  apply optimized_imported_raises.
Qed.

(** X24. With equal digests [e1 = e2] the recovery of scenario 1 has a zero
    denominator and reports failure, [(0, False)], provided [1 + d] has an
    inverse; otherwise it raises what [mod_inverse] raises. *)
Theorem scenario1_recover_equal_digests (d k e x1 : Z) :
  Misuse.scenario1_recover d k e e x1
  = (inv_1d <- mod_inverse (1 + d) n ;; Ok (0, false)).
Proof.
  unfold Misuse.scenario1_recover.
  destruct (mod_inverse (1 + d) n) as [inv_1d|]; [|reflexivity].
  cbn [bind]. cbv zeta.
  rewrite Z.sub_diag. reflexivity.
Qed.

(** X25. The recovery of scenario 1 returns the key, for a key prime to
    [n], only when the nonce is [e2 - e1] modulo [n]. *)
Theorem scenario1_recover_only_for_one_nonce (d k e1 e2 x1 d_recovered : Z) :
  Z.gcd d n = 1 ->
  Misuse.scenario1_recover d k e1 e2 x1 = Ok (d_recovered, true) ->
  (k + e1 - e2) mod n = 0.
Proof.
  apply scenario1_recover_needs_special_nonce.
Qed.

Lemma scenario1_recover_only_for_one_nonce_witness : (5 + 1 - 6) mod n = 0.
Proof.
  apply (scenario1_recover_only_for_one_nonce 2 5 1 6 Demo.x1 2).
  - vm_compute. reflexivity.
  - vm_compute. reflexivity.
Defined.

(** X26. [scenario2_fixed_k] returns for no input: the import of
    sm2_misuse.py raises NameError, the one of sm2_optimized.py. *)
Theorem scenario2_fixed_k_raises (sm3_hash : bytes -> bytes)
    (d : Z) (M z : bytes) (fixed_k : Z) :
  Misuse.scenario2_fixed_k sm3_hash d M z fixed_k = Raise NameError.
Proof.
  apply misuse_imported_raises.
Qed.

(** X27. [scenario3_incorrect_Z] returns for no input: the import of
    sm2_misuse.py raises NameError, the one of sm2_optimized.py. *)
Theorem scenario3_incorrect_Z_raises (sm3_hash : bytes -> bytes)
    (d : Z) (M ID1 ID2 : bytes) (draws : list Z) :
  Misuse.scenario3_incorrect_Z sm3_hash d M ID1 ID2 draws = Raise NameError.
Proof.
  apply misuse_imported_raises.
Qed.

(** X28. The pair [(r', s')] that scenario 2 forges for the digest [e']:
    [r'] is the [r] of the signature the signer would make on [e'] with the
    same nonce, but [s'] is the [s] of that signature plus [r' - r] modulo
    [n].  The forged pair is that signature only when [r' = r]. *)
Theorem scenario2_forged_pair (d k e e_prime x1 r_prime s_prime : Z) :
  0 <= 1 + d ->
  Misuse.scenario2_forge d k e e_prime x1 = Ok (r_prime, s_prime) ->
  r_prime = (e_prime + x1) mod n /\
  exists inv_1d,
    mod_inverse (1 + d) n = Ok inv_1d /\
    s_prime mod n
    = ((inv_1d * (k - r_prime * d)) mod n + (r_prime - (e + x1) mod n)) mod n.
Proof.
  intros Hd. unfold Misuse.scenario2_forge.
  destruct (mod_inverse (1 + d) n) as [inv_1d|] eqn:Ei; [|discriminate].
  cbn [bind]. cbv zeta. intros E. injection E as <- <-.
  apply mod_inverse_ok in Ei; [|assumption|exact n_pos].
  split.
  - Z.mod_equality.
  - exists inv_1d. split; [reflexivity|].
    apply fixed_nonce_offset. exact (proj2 Ei).
Qed.

Lemma scenario2_forged_pair_witness :
  exists r_prime s_prime,
    Misuse.scenario2_forge Demo.d Demo.k 1 2 Demo.x1 = Ok (r_prime, s_prime) /\
    r_prime = (2 + Demo.x1) mod n /\
    exists inv_1d,
      mod_inverse (1 + Demo.d) n = Ok inv_1d /\
      s_prime mod n
      = ((inv_1d * (Demo.k - r_prime * Demo.d)) mod n
         + (r_prime - (1 + Demo.x1) mod n)) mod n.
Proof.
  destruct (Misuse.scenario2_forge Demo.d Demo.k 1 2 Demo.x1) as [[r' s']|] eqn:E;
    [|vm_compute in E; discriminate].
  exists r', s'. split; [reflexivity|].
  apply (scenario2_forged_pair Demo.d Demo.k 1 2 Demo.x1 r' s').
  - vm_compute. discriminate.
  - exact E.
Defined.

(** X29. For a signature [(r, s)] returned by the base [sign] under a key
    [d >= -1], some drawn nonce [k] has [r = (e + x1) mod n] with [x1] the
    x-coordinate of [k*G], and [s + t*d = k] modulo [n] for the [t] of the
    verifier: the scalars that [verify] applies to [G] and to [d*G] add up
    to the nonce. *)
Theorem sign_scalars_add_up (sm3_hash : bytes -> bytes)
    (d : Z) (message z : bytes) (draws : list Z) (r s : Z) :
  0 <= 1 + d ->
  Base.sign sm3_hash d message z draws = Ok (Some (r, s)) ->
  exists k x1 y1,
    In k draws /\
    Base.point_multiply (Some (Gx, Gy)) k = Ok (Some (x1, y1)) /\
    r = (from_bytes (sm3_hash (z ++ message)) + x1) mod n /\
    (s + ((r + s) mod n) * d) mod n = k mod n.
Proof.
  intros Hd. unfold Base.sign. cbv zeta. intros H.
  destruct (base_sign_loop_from_draw _ _ _ _ _ H) as (k & Hin & Hk).
  destruct (base_sign_iteration_range _ _ _ _ _ Hk)
    as (_ & _ & _ & x1 & y1 & inv_1d & HkG & Hinv & Er & Es).
  apply mod_inverse_ok in Hinv; [|assumption|exact n_pos].
  exists k, x1, y1. repeat split; try assumption.
  rewrite Es. apply signature_scalars. exact (proj2 Hinv).
Qed.

Lemma sign_scalars_add_up_witness :
  exists k x1 y1,
    In k [Demo.k] /\
    Base.point_multiply (Some (Gx, Gy)) k = Ok (Some (x1, y1)) /\
    1 = (from_bytes (Demo.constant_hash Demo.e ([] ++ [])) + x1) mod n /\
    (1 + ((1 + 1) mod n) * Demo.d) mod n = k mod n.
Proof.
  apply (sign_scalars_add_up (Demo.constant_hash Demo.e) Demo.d [] [] [Demo.k] 1 1).
  - vm_compute. discriminate.
  - exact (proj1 base_signature_valid).
Defined.
